(** * Photo_Restoration: orchestration of the external restoration engine

    A shallow embedding of [photo_restoration_runner.py] ([run_command],
    [make_grid], [restore_photos]) and of the two drivers of [gradio_app.py]
    ([process_single_image], [process_multiple_images]), followed by the
    properties of the staged-pipeline orchestration that the specification
    states about them.

    Modelling conventions.
    - A path is the list of its components; an absolute path starts with the
      empty component, so that ["/tmp/x"] is [[EmptyString; "tmp"; "x"]].
      [os.path.join] appends components and [path_str] renders a path with
      ["/"] between the components.
    - The file system is an ordered association list from paths to nodes;
      the order of the entries is the order in which [os.listdir] reports
      them.
    - Python code that reads or changes the file system, or that may raise,
      is written in a state-and-exception monad over a [World]: the file
      system and the chronological trace of the operations performed on it.
      The state survives an exception, as it does in Python.
    - [print] calls write to the console only and are left out.
    - Python floats are IEEE-754 binary64 numbers, modelled with the
      Standard Library's [SpecFloat] (precision 53, maximal exponent 1024). *)

From Stdlib Require Import String Ascii List ZArith Lia Bool Arith.
From Stdlib Require Import DecimalString SpecFloat.
Import ListNotations.

Set Implicit Arguments.

Local Open Scope string_scope.
Local Open Scope list_scope.

(* ================================================================== *)
(** ** Strings *)

Module Str.

(** [str(n)] for a Python [int]. *)
Definition of_Z (z : Z) : string := NilZero.string_of_int (Z.to_int z).

(** [str(i)] for an index produced by [enumerate]. *)
Definition of_nat (n : nat) : string := of_Z (Z.of_nat n).

(** The characters of a string. *)
Definition chars (s : string) : list ascii := list_ascii_of_string s.

Fixpoint prefixb (t s : list ascii) : bool :=
  match t, s with
  | [], _ => true
  | _ :: _, [] => false
  | a :: t', b :: s' => Ascii.eqb a b && prefixb t' s'
  end.



(** [s.endswith(suf)]. *)
Definition endswith (s suf : string) : bool :=
  prefixb (rev (chars suf)) (rev (chars s)).

(** [s.endswith((suf1, suf2, ...))]: a tuple of alternatives. *)
Definition endswith_any (s : string) (sufs : list string) : bool :=
  existsb (endswith s) sufs.

Definition lower_ascii (c : ascii) : ascii :=
  let n := nat_of_ascii c in
  if andb (Nat.leb 65 n) (Nat.leb n 90) then ascii_of_nat (n + 32) else c.

(** [s.lower()], on the ASCII letters. *)
Fixpoint lower (s : string) : string :=
  match s with
  | EmptyString => EmptyString
  | String c s' => String (lower_ascii c) (lower s')
  end.

(** The tail of [s] that starts at its last ["."], if it has one. *)
Fixpoint last_dot_tail (s : string) : option string :=
  match s with
  | EmptyString => None
  | String c s' =>
      match last_dot_tail s' with
      | Some t => Some t
      | None => if Ascii.eqb c "."%char then Some s else None
      end
  end.

(** [PurePath.suffix] of a file name: [name[i:]] for [i = name.rfind(".")]
    when [0 < i < len(name) - 1], and the empty string otherwise. *)
Definition suffix (name : string) : string :=
  match name with
  | EmptyString => EmptyString
  | String _ rest =>
      match last_dot_tail rest with
      | Some t => if Nat.eqb (String.length t) 1 then EmptyString else t
      | None => EmptyString
      end
  end.

End Str.

(* ================================================================== *)
(** ** Paths *)

Definition path := list string.

Fixpoint path_eqb (p q : path) : bool :=
  match p, q with
  | [], [] => true
  | a :: p', b :: q' => String.eqb a b && path_eqb p' q'
  | _, _ => false
  end.

(** [os.path.join(p, part1, part2, ...)] for relative, slash-free parts. *)
Definition os_path_join (p : path) (parts : list string) : path := p ++ parts.

(** The text of a path, as an f-string interpolates it. *)
Definition path_str (p : path) : string := String.concat "/" p.

(** [p] is [d] itself or lies below it. *)
Fixpoint under (d p : path) : bool :=
  match d, p with
  | [], _ => true
  | _ :: _, [] => false
  | a :: d', b :: p' => String.eqb a b && under d' p'
  end.

(** [p] lies strictly below [d]. *)
Definition strictly_under (d p : path) : bool :=
  under d p && negb (path_eqb d p).

(** The name [n] with [p = d ++ [n]], when [p] is a direct child of [d]. *)
Fixpoint child_name (d p : path) : option string :=
  match d, p with
  | [], [n] => Some n
  | a :: d', b :: p' => if String.eqb a b then child_name d' p' else None
  | _, _ => None
  end.

(** A path split into its parent and its last component. *)
Fixpoint split_last (p : path) : option (path * string) :=
  match p with
  | [] => None
  | [n] => Some ([], n)
  | c :: p' =>
      match split_last p' with
      | Some (d, n) => Some (c :: d, n)
      | None => None
      end
  end.

(** [Path(p).name]. *)
Definition basename (p : path) : string :=
  match split_last p with
  | Some (_, n) => n
  | None => EmptyString
  end.

(* ================================================================== *)
(** ** Images *)

(** The PIL modes the model distinguishes. *)
Inductive mode := ModeL | ModeLA | ModeRGB | ModeRGBA.

Definition bands (m : mode) : Z :=
  match m with
  | ModeL => 1
  | ModeLA => 2
  | ModeRGB => 3
  | ModeRGBA => 4
  end.

(** A PIL image: its size and its mode. Pixel values are not modelled. *)
Record image := mkImage { im_width : Z; im_height : Z; im_mode : mode }.

(* ================================================================== *)
(** ** The file system and the world *)

(** A regular file holds a decodable image or something else. *)
Inductive node :=
| File (content : option image)
| Dir.

Definition FS := list (path * node).

Fixpoint assoc (f : FS) (p : path) : option node :=
  match f with
  | [] => None
  | (q, n) :: f' => if path_eqb q p then Some n else assoc f' p
  end.

(** The node at a path; the root ["/"] is always a directory. *)
Definition node_at (f : FS) (p : path) : option node :=
  match p with
  | [EmptyString] => Some Dir
  | _ => assoc f p
  end.

Definition fs_exists (f : FS) (p : path) : bool :=
  match node_at f p with Some _ => true | None => false end.

Definition fs_isdir (f : FS) (p : path) : bool :=
  match node_at f p with Some Dir => true | _ => false end.

(** The names of the entries directly inside [d], in listing order. *)
Fixpoint fs_children (f : FS) (d : path) : list string :=
  match f with
  | [] => []
  | (q, _) :: f' =>
      match child_name d q with
      | Some n => n :: fs_children f' d
      | None => fs_children f' d
      end
  end.

(** Everything at or below [d] removed. *)
Definition fs_remove_tree (f : FS) (d : path) : FS :=
  filter (fun e => negb (under d (fst e))) f.

(** The node at [p] set to [n]: in place when [p] has an entry, appended
    otherwise. *)
Fixpoint fs_set (f : FS) (p : path) (n : node) : FS :=
  match f with
  | [] => [(p, n)]
  | (q, m) :: f' =>
      if path_eqb q p then (q, n) :: f' else (q, m) :: fs_set f' p n
  end.

(** The directories [pre/c1], [pre/c1/c2], ... created where missing; the
    flag is [false] when a regular file is in the way (what was created
    before stays). *)
Fixpoint ensure_dirs (f : FS) (pre : path) (rest : list string) : FS * bool :=
  match rest with
  | [] => (f, true)
  | c :: rest' =>
      let p := pre ++ [c] in
      match node_at f p with
      | Some Dir => ensure_dirs f p rest'
      | Some (File _) => (f, false)
      | None => ensure_dirs (f ++ [(p, Dir)]) p rest'
      end
  end.

(** The operations a run performs, as the trace records them. *)
Inductive event :=
| EvExists (p : path)
| EvIsdir (p : path)
| EvListdir (p : path)
| EvOpen (p : path)
| EvMakedirs (p : path)
| EvMkdtemp (p : path)
| EvRmtree (p : path)
| EvSave (p : path)
| EvCopy (src dst : path)
| EvRun (cmd : string) (cwd : option path) (returncode : Z).

(** The events that read the file system without changing it. *)
Definition is_query (e : event) : bool :=
  match e with
  | EvExists _ | EvIsdir _ | EvListdir _ | EvOpen _ => true
  | _ => false
  end.

Record World := mkWorld { fs : FS; trace : list event }.

(* ================================================================== *)
(** ** The monad of stateful Python code *)

Inductive exn :=
| FileNotFoundError
| FileExistsError
| NotADirectoryError
| IsADirectoryError
| UnidentifiedImageError
| OSError
| ValueError
| IndexError
| ZeroDivisionError
| OverflowError.

Inductive outcome (A : Type) :=
| Val (a : A)
| Raise (e : exn).

Arguments Val {A} a.
Arguments Raise {A} e.

Definition M (A : Type) := World -> outcome A * World.

Definition ret {A} (a : A) : M A := fun w => (Val a, w).

Definition bind {A B} (m : M A) (k : A -> M B) : M B :=
  fun w =>
    match m w with
    | (Val a, w1) => k a w1
    | (Raise e, w1) => (Raise e, w1)
    end.

Definition raise {A} (e : exn) : M A := fun w => (Raise e, w).

(** [try: body finally: cleanup], with a cleanup that does not raise. *)
Definition finally {A} (body : M A) (cleanup : World -> World) : M A :=
  fun w => let (r, w1) := body w in (r, cleanup w1).

Declare Scope py_scope.
Delimit Scope py_scope with py.
Notation "x <- m ;; k" := (bind m (fun x => k))
  (at level 100, m at next level, right associativity) : py_scope.
Notation "m ;; k" := (bind m (fun _ => k))
  (at level 100, right associativity) : py_scope.
Local Open Scope py_scope.

Definition log (e : event) : M unit :=
  fun w => (Val tt, mkWorld (fs w) (trace w ++ [e])).

Definition get_fs : M FS := fun w => (Val (fs w), w).

Definition put_fs (f : FS) : M unit :=
  fun w => (Val tt, mkWorld f (trace w)).

(** [for x in xs: body x]. *)
Fixpoint for_each {A} (xs : list A) (body : A -> M unit) : M unit :=
  match xs with
  | [] => ret tt
  | x :: xs' => body x ;; for_each xs' body
  end.

(* ------------------------------------------------------------------ *)
(** *** File-system calls of the Python library *)

(** [os.path.exists(p)]. *)
Definition os_path_exists (p : path) : M bool :=
  log (EvExists p) ;; f <- get_fs ;; ret (fs_exists f p).

(** [os.path.isdir(p)]. *)
Definition os_path_isdir (p : path) : M bool :=
  log (EvIsdir p) ;; f <- get_fs ;; ret (fs_isdir f p).

(** [os.listdir(p)]. *)
Definition os_listdir (p : path) : M (list string) :=
  log (EvListdir p) ;;
  f <- get_fs ;;
  match node_at f p with
  | Some Dir => ret (fs_children f p)
  | Some (File _) => raise NotADirectoryError
  | None => raise FileNotFoundError
  end.

(** [os.makedirs(p, exist_ok=exist_ok)]: the missing ancestors are created,
    then the leaf; an existing leaf is an error unless [exist_ok] is set and
    the leaf is a directory. *)
Definition os_makedirs (p : path) (exist_ok : bool) : M unit :=
  log (EvMakedirs p) ;;
  f <- get_fs ;;
  match split_last p with
  | None => raise FileNotFoundError
  | Some (parent, _) =>
      let (f1, ok) := ensure_dirs f [] parent in
      put_fs f1 ;;
      if ok then
        match node_at f1 p with
        | None => put_fs (f1 ++ [(p, Dir)])
        | Some Dir => if exist_ok then ret tt else raise FileExistsError
        | Some (File _) => raise FileExistsError
        end
      else raise NotADirectoryError
  end.

(** [shutil.rmtree(p)]. *)
Definition shutil_rmtree (p : path) : M unit :=
  log (EvRmtree p) ;;
  f <- get_fs ;;
  match node_at f p with
  | Some Dir => put_fs (fs_remove_tree f p)
  | Some (File _) => raise NotADirectoryError
  | None => raise FileNotFoundError
  end.

(** Writing a regular file: its directory must exist and the path must not
    be a directory. *)
Definition write_file (p : path) (c : option image) : M unit :=
  f <- get_fs ;;
  match split_last p with
  | None => raise FileNotFoundError
  | Some (parent, _) =>
      if match parent with [] => true | _ => fs_isdir f parent end then
        match node_at f p with
        | Some Dir => raise IsADirectoryError
        | _ => put_fs (fs_set f p (File c))
        end
      else raise FileNotFoundError
  end.

(** [Image.open(p)]. *)
Definition Image_open (p : path) : M image :=
  log (EvOpen p) ;;
  f <- get_fs ;;
  match node_at f p with
  | Some (File (Some im)) => ret im
  | Some (File None) => raise UnidentifiedImageError
  | Some Dir => raise IsADirectoryError
  | None => raise FileNotFoundError
  end.

(** [im.save(p, quality=100)] for a [.jpg] path: the JPEG encoder refuses
    the modes with an alpha channel. *)
Definition Image_save_jpeg (im : image) (p : path) : M unit :=
  log (EvSave p) ;;
  match im_mode im with
  | ModeL | ModeRGB => write_file p (Some im)
  | ModeLA | ModeRGBA => raise OSError
  end.

(** [shutil.copy2(src, dst)] onto a path that is not a directory. *)
Definition shutil_copy2 (src dst : path) : M unit :=
  log (EvCopy src dst) ;;
  f <- get_fs ;;
  match node_at f src with
  | Some (File c) => write_file dst c
  | Some Dir => raise IsADirectoryError
  | None => raise FileNotFoundError
  end.

(* ================================================================== *)
(** ** photo_restoration_runner.py *)

(** *** Python floats and the arithmetic of [make_grid] *)

(** [float(z)] for an integer. *)
Definition float_of_Z (z : Z) : spec_float := binary_normalize 53 1024 z 0 false.

(** [a / b] on integers, away from the range where [float] rounds them. *)
Definition true_div (a b : Z) : spec_float :=
  SFdiv 53 1024 (float_of_Z a) (float_of_Z b).

(** [n * x] for an integer [n] and a float [x]. *)
Definition int_times_float (n : Z) (x : spec_float) : spec_float :=
  SFmul 53 1024 (float_of_Z n) x.

(** [int(x)]: truncation toward zero. *)
Definition int_of_float (x : spec_float) : outcome Z :=
  match x with
  | S754_zero _ => Val 0%Z
  | S754_finite s m e =>
      let a := if (0 <=? e)%Z then (Z.pos m * 2 ^ e)%Z
               else (Z.pos m / 2 ^ (- e))%Z in
      Val (if s then (- a)%Z else a)
  | S754_infinity _ => Raise OverflowError
  | S754_nan => Raise ValueError
  end.

(** Sequencing of computations that may raise but touch no state. *)
Definition and_then {A B} (r : outcome A) (k : A -> outcome B) : outcome B :=
  match r with
  | Val a => k a
  | Raise e => Raise e
  end.

(** *** PIL and numpy, as far as [make_grid] uses them *)

(** [np.asarray(im).ndim]: two axes for a single band, three otherwise. *)
Definition ndim (im : image) : Z :=
  if (bands (im_mode im) =? 1)%Z then 2%Z else 3%Z.

(** [im.resize((w, h))]: a copy when the size is unchanged, an error for a
    size below one pixel, the resampled image otherwise. *)
Definition Image_resize (im : image) (w h : Z) : outcome image :=
  if ((w =? im_width im) && (h =? im_height im))%Z then Val im
  else if ((w <? 1) || (h <? 1))%Z then Raise ValueError
  else Val (mkImage w h (im_mode im)).

(** [im.convert('L')]. *)
Definition Image_convert_L (im : image) : image :=
  mkImage (im_width im) (im_height im) ModeL.

(** [dst[...] = a[:, :, :3]] into a three-band slot for an array [a] of an
    image: indexing three axes fails on a two-axis array, and two bands do
    not broadcast to three. *)
Definition assign_first_three (im : image) : outcome unit :=
  if (ndim im =? 2)%Z then Raise IndexError
  else if (bands (im_mode im) =? 2)%Z then Raise ValueError
  else Val tt.

Definition W_base : Z := 600%Z.

(** The height the resize branch computes: [int(H * (W_base / (W*2)))]. *)
Definition H_new (W H : Z) : outcome Z :=
  if (W * 2 =? 0)%Z then Raise ZeroDivisionError
  else
    let ratio := true_div W_base (W * 2) in
    int_of_float (int_times_float H ratio).

(** [make_grid(I1, I2, resize=True)]. *)
Definition make_grid (I1 I2 : image) (resize : bool) : outcome image :=
  let H := im_height I1 in
  let W := im_width I1 in
  and_then
    (if (3 <=? ndim I1)%Z then
       and_then (Image_resize I2 W H) (fun I2' =>
       and_then (assign_first_three I1) (fun _ =>
       and_then (assign_first_three I2') (fun _ =>
       Val (mkImage (W * 2) H ModeRGB))))
     else
       and_then (Image_resize I2 W H) (fun I2' =>
       let I2_L := Image_convert_L I2' in
       Val (mkImage (W * 2) H ModeL)))
    (fun I_combine =>
       if resize then
         and_then (H_new W H) (fun h =>
         Image_resize I_combine W_base h)
       else Val I_combine).

(** *** The engine command *)

Definition photo_restoration_dir : path := ["photo_restoration"].

(** The f-string of [restore_photos] and the two optional flags. *)
Definition build_command (input_folder output_folder : path) (gpu_id : Z)
    (with_scratch hr : bool) : string :=
  let cmd := ("python run.py --input_folder " ++ path_str input_folder
              ++ " --output_folder " ++ path_str output_folder
              ++ " --GPU " ++ Str.of_Z gpu_id)%string in
  let cmd := if with_scratch then (cmd ++ " --with_scratch")%string else cmd in
  let cmd := if hr then (cmd ++ " --HR")%string else cmd in
  cmd.

Section Runner.

(** The shell running a command in a working directory: what it does to
    the file system, and its exit status. *)
Variable shell : string -> option path -> FS -> FS * Z.

(** [run_command(command, cwd=None, check=True)]; [subprocess.run] raises
    when [cwd] is not a directory. *)
Definition run_command (command : string) (cwd : option path)
    (check : bool) : M bool :=
  f <- get_fs ;;
  match match cwd with
        | Some d => node_at f d
        | None => Some Dir
        end with
  | Some Dir =>
      let (f', returncode) := shell command cwd f in
      put_fs f' ;;
      log (EvRun command cwd returncode) ;;
      if check && negb (returncode =? 0)%Z then ret false else ret true
  | Some (File _) => raise NotADirectoryError
  | None => raise FileNotFoundError
  end.

(** Lines 79-81 of [restore_photos]: the output directory is deleted when
    it is there, and created. *)
Definition prepare_output (output_folder : path) : M unit :=
  d <- os_path_isdir output_folder ;;
  (if d then shutil_rmtree output_folder else ret tt) ;;
  os_makedirs output_folder false.

(** [restore_photos(input_folder, output_folder, gpu_id, with_scratch, hr)]. *)
Definition restore_photos (input_folder output_folder : path) (gpu_id : Z)
    (with_scratch hr : bool) : M bool :=
  e <- os_path_exists photo_restoration_dir ;;
  if negb e then ret false
  else
    let run_py_path := os_path_join photo_restoration_dir ["run.py"] in
    e <- os_path_exists run_py_path ;;
    if negb e then ret false
    else
      prepare_output output_folder ;;
      let cmd := build_command input_folder output_folder gpu_id
                               with_scratch hr in
      success <- run_command cmd (Some photo_restoration_dir) true ;;
      ret success.

End Runner.

(* ================================================================== *)
(** ** gradio_app.py *)

(** The extensions the fallback scan recognises. *)
Definition image_suffixes : list string := [".jpg"; ".jpeg"; ".png"; ".bmp"].

(** [file.lower().endswith(('.jpg', '.jpeg', '.png', '.bmp'))]. *)
Definition is_image_name (file : string) : bool :=
  Str.endswith_any (Str.lower file) image_suffixes.

Definition uploaded_name : string := "uploaded_image.jpg".

(** The list [possible_output_dirs] of [process_single_image]. *)
Definition possible_output_dirs (output_dir : path) : list path :=
  [ os_path_join output_dir ["final_output"];
    output_dir;
    os_path_join output_dir ["restored_image"];
    os_path_join output_dir ["stage_1_restore_output"; "restored_image"];
    os_path_join output_dir ["stage_1_restore_output"; "origin"];
    os_path_join output_dir ["stage_3_face_output"; "each_img"] ].

Definition stage_dirs : list string :=
  ["stage_1_restore_output"; "stage_2_detection_output";
   "stage_3_face_output"; "final_output"].

(** The inner loop [for file in contents]: the first name with an image
    extension is opened, and ends the search. *)
Fixpoint scan_contents (output_subdir : path) (contents : list string)
    : M (option (image * path)) :=
  match contents with
  | [] => ret None
  | file :: contents' =>
      if is_image_name file then
        let test_path := os_path_join output_subdir [file] in
        restored_image <- Image_open test_path ;;
        ret (Some (restored_image, test_path))
      else scan_contents output_subdir contents'
  end.

(** The loop [for output_subdir in possible_output_dirs] of
    [process_single_image]: the pair [(restored_image, restored_path)] it
    leaves, or [None] when both stay [None]. *)
Fixpoint find_restored (dirs : list path) : M (option (image * path)) :=
  match dirs with
  | [] => ret None
  | output_subdir :: dirs' =>
      e <- os_path_exists output_subdir ;;
      if e then
        contents <- os_listdir output_subdir ;;
        let test_path := os_path_join output_subdir [uploaded_name] in
        e' <- os_path_exists test_path ;;
        if e' then
          restored_image <- Image_open test_path ;;
          ret (Some (restored_image, test_path))
        else
          r <- scan_contents output_subdir contents ;;
          match r with
          | Some found => ret (Some found)
          | None => find_restored dirs'
          end
      else find_restored dirs'
  end.

(** The loop that lists every stage directory for the console. *)
Definition check_stages (output_dir : path) : M unit :=
  for_each stage_dirs (fun stage =>
    let stage_path := os_path_join output_dir [stage] in
    e <- os_path_exists stage_path ;;
    if e then
      contents <- os_listdir stage_path ;;
      for_each contents (fun item =>
        let item_path := os_path_join stage_path [item] in
        d <- os_path_isdir item_path ;;
        if d then (_ <- os_listdir item_path ;; ret tt) else ret tt)
    else ret tt).

(** [enumerate(xs)], counting from [i]. *)
Fixpoint enumerate_from {A} (i : nat) (xs : list A) : list (nat * A) :=
  match xs with
  | [] => []
  | x :: xs' => (i, x) :: enumerate_from (S i) xs'
  end.

Definition enumerate {A} (xs : list A) : list (nat * A) := enumerate_from 0 xs.

(** [f"image_{i}{ext}"] with [ext = Path(file_path).suffix]. *)
Definition indexed_name (i : nat) (file_path : path) : string :=
  ("image_" ++ Str.of_nat i ++ Str.suffix (basename file_path))%string.

(** The entries of a batch result: [(original, restored, comparison)]. *)
Definition item := (option image * option image * option image)%type.

Definition absent_item : item := (None, None, None).

(** The result of the single-image driver:
    [(original, restored, download_path)]. *)
Definition single_result := (option image * option image * option path)%type.

Section Drivers.

Variable shell : string -> option path -> FS -> FS * Z.

(** [tempfile.gettempdir()]. *)
Variable tempdir : path.

(** The random names [tempfile] draws, in the order it tries them. *)
Variable candidate_names : list string.

(** [datetime.datetime.now().strftime("%Y%m%d_%H%M%S")]. *)
Variable timestamp : string.

Fixpoint first_free (f : FS) (names : list string) : option path :=
  match names with
  | [] => None
  | n :: names' =>
      let p := os_path_join tempdir [("tmp" ++ n)%string] in
      if fs_exists f p then first_free f names' else Some p
  end.

(** [tempfile.mkdtemp()]: the first candidate that does not exist is
    created. *)
Definition mkdtemp : M path :=
  f <- get_fs ;;
  match first_free f candidate_names with
  | None => raise FileExistsError
  | Some p =>
      match node_at f tempdir with
      | Some Dir => log (EvMkdtemp p) ;; put_fs (f ++ [(p, Dir)]) ;; ret p
      | Some (File _) => raise NotADirectoryError
      | None => raise FileNotFoundError
      end
  end.

(** What leaving a [with tempfile.TemporaryDirectory()] block does. *)
Definition cleanup (d : path) (w : World) : World :=
  mkWorld (fs_remove_tree (fs w) d) (trace w ++ [EvRmtree d]).

(** [with tempfile.TemporaryDirectory() as temp_dir: body]. *)
Definition with_TemporaryDirectory {A} (body : path -> M A) : M A :=
  temp_dir <- mkdtemp ;;
  finally (body temp_dir) (cleanup temp_dir).

(** [process_single_image(image, use_gpu, with_scratch, high_resolution)]. *)
Definition process_single_image (image : option image)
    (use_gpu with_scratch high_resolution : bool) : M single_result :=
  match image with
  | None => ret (None, None, None)
  | Some image =>
      with_TemporaryDirectory (fun temp_dir =>
        let input_dir := os_path_join temp_dir ["input"] in
        let output_dir := os_path_join temp_dir ["output"] in
        os_makedirs input_dir true ;;
        os_makedirs output_dir true ;;
        let input_path := os_path_join input_dir [uploaded_name] in
        Image_save_jpeg image input_path ;;
        _ <- os_listdir input_dir ;;
        let gpu_id := if use_gpu then 0%Z else (-1)%Z in
        success <- restore_photos shell input_dir output_dir gpu_id
                                  with_scratch high_resolution ;;
        e <- os_path_exists output_dir ;;
        (if e then (_ <- os_listdir output_dir ;; ret tt) else ret tt) ;;
        if negb success then ret (None, None, None)
        else
          check_stages output_dir ;;
          found <- find_restored (possible_output_dirs output_dir) ;;
          match found with
          | Some (restored_image, _) =>
              let download_dir := ["downloads"] in
              os_makedirs download_dir true ;;
              let download_filename :=
                ("restored_photo_" ++ timestamp ++ ".jpg")%string in
              let download_path :=
                os_path_join download_dir [download_filename] in
              Image_save_jpeg restored_image download_path ;;
              ret (Some image, Some restored_image, Some download_path)
          | None => ret (None, None, None)
          end)
  end.

(** The loop that copies the uploaded files into the input directory. *)
Definition copy_uploads (input_dir : path) (files : list (option path))
    : M unit :=
  for_each (enumerate files) (fun '(i, file_path) =>
    match file_path with
    | Some file_path =>
        let new_path :=
          os_path_join input_dir [indexed_name i file_path] in
        shutil_copy2 file_path new_path
    | None => ret tt
    end).

(** The body of the loop that loads the results of a batch. *)
Definition load_result (final_output_dir : path) (i : nat)
    (file_path : option path) : M item :=
  match file_path with
  | Some file_path =>
      original_image <- Image_open file_path ;;
      let restored_path :=
        os_path_join final_output_dir [indexed_name i file_path] in
      e <- os_path_exists restored_path ;;
      if e then
        restored_image <- Image_open restored_path ;;
        match make_grid original_image restored_image true with
        | Val comparison =>
            ret (Some original_image, Some restored_image, Some comparison)
        | Raise err => raise err
        end
      else ret (Some original_image, None, None)
  | None => ret absent_item
  end.

(** The loop [for i, file_path in enumerate(files)] that appends one entry
    per file to [results]. *)
Fixpoint load_results (final_output_dir : path)
    (files : list (nat * option path)) (results : list item)
    : M (list item) :=
  match files with
  | [] => ret results
  | (i, file_path) :: files' =>
      r <- load_result final_output_dir i file_path ;;
      load_results final_output_dir files' (results ++ [r])
  end.

(** [process_multiple_images(files, use_gpu, with_scratch, high_resolution)];
    [files] is [None] or a list whose entries are paths or [None]. *)
Definition process_multiple_images (files : option (list (option path)))
    (use_gpu with_scratch high_resolution : bool) : M (list item) :=
  match files with
  | None | Some [] => ret []
  | Some files =>
      let results := [] in
      with_TemporaryDirectory (fun temp_dir =>
        let input_dir := os_path_join temp_dir ["input"] in
        let output_dir := os_path_join temp_dir ["output"] in
        os_makedirs input_dir true ;;
        os_makedirs output_dir true ;;
        copy_uploads input_dir files ;;
        let gpu_id := if use_gpu then 0%Z else (-1)%Z in
        success <- restore_photos shell input_dir output_dir gpu_id
                                  with_scratch high_resolution ;;
        if negb success then ret (repeat absent_item (length files))
        else
          let final_output_dir := os_path_join output_dir ["final_output"] in
          e <- os_path_exists final_output_dir ;;
          if e then load_results final_output_dir (enumerate files) results
          else ret results)
  end.

End Drivers.


(* ================================================================== *)
(** * More of the two files *)

From Stdlib Require DecimalZ DecimalPos.

(** ** photo_restoration_runner.py: the comparisons of a folder *)

(** [try: body except Exception: handler]. *)
Definition try_except {A} (body : M A) (handler : exn -> M A) : M A :=
  fun w =>
    match body w with
    | (Val a, w1) => (Val a, w1)
    | (Raise e, w1) => handler e w1
    end.

(** The set [image_extensions] of [visualize_results]. *)
Definition image_extensions : list string :=
  [".jpg"; ".jpeg"; ".png"; ".bmp"; ".tiff"].

(** [Path(name).suffix.lower() in image_extensions]. *)
Definition has_image_extension (name : string) : bool :=
  existsb (String.eqb (Str.lower (Str.suffix name))) image_extensions.

(** [p.is_file()]: a stat of the path, recorded in the trace like
    [os.path.exists]. *)
Definition Path_is_file (p : path) : M bool :=
  log (EvExists p) ;;
  f <- get_fs ;;
  ret (match node_at f p with Some (File _) => true | _ => false end).

(** The list comprehension of [visualize_results] on the names that
    [input_path.iterdir()] yields: the regular files with an image
    extension. *)
Fixpoint image_files (input_path : path) (names : list string)
    : M (list string) :=
  match names with
  | [] => ret []
  | n :: names' =>
      is_file <- Path_is_file (os_path_join input_path [n]) ;;
      rest <- image_files input_path names' ;;
      ret (if is_file && has_image_extension n then n :: rest else rest)
  end.

(** [filenames.sort()] on the paths of one directory: the order of their
    names, character code by character code. *)
Fixpoint insert_name (x : string) (l : list string) : list string :=
  match l with
  | [] => [x]
  | y :: l' => if String.leb x y then x :: l else y :: insert_name x l'
  end.

Definition sort_names (l : list string) : list string :=
  fold_right insert_name [] l.

(** The formats [Image.save] chooses for the extensions above, and the
    modes their encoders write. *)
Inductive format := JPEG | PNG | BMP | TIFF.

Definition format_of (name : string) : option format :=
  let ext := Str.lower (Str.suffix name) in
  if String.eqb ext ".jpg" || String.eqb ext ".jpeg" then Some JPEG
  else if String.eqb ext ".png" then Some PNG
  else if String.eqb ext ".bmp" then Some BMP
  else if String.eqb ext ".tiff" || String.eqb ext ".tif" then Some TIFF
  else None.

Definition encoder_writes (fmt : format) (m : mode) : bool :=
  match fmt, m with
  | JPEG, (ModeLA | ModeRGBA) => false
  | BMP, ModeLA => false
  | _, _ => true
  end.

(** [im.save(p)]: the format follows the extension of the path, and its
    encoder may refuse the mode. The paths [visualize_results] saves to
    carry one of the extensions above; the other extensions are not told
    apart and count as unknown. *)
Definition Image_save (im : image) (p : path) : M unit :=
  log (EvSave p) ;;
  match format_of (basename p) with
  | None => raise ValueError
  | Some fmt =>
      if encoder_writes fmt (im_mode im) then write_file p (Some im)
      else raise OSError
  end.

(** The body of the loop of [visualize_results] for one file name. *)
Definition visualize_one (input_path output_path : path) (name : string)
    : M unit :=
  try_except
    (image_original <- Image_open (os_path_join input_path [name]) ;;
     image_restore <- Image_open (os_path_join output_path [name]) ;;
     match make_grid image_original image_restore true with
     | Val comparison =>
         let comparison_path :=
           os_path_join output_path [("comparison_" ++ name)%string] in
         Image_save comparison comparison_path
     | Raise err => raise err
     end)
    (fun _ => ret tt).

(** [visualize_results(input_folder, output_folder)]. *)
Definition visualize_results (input_folder output_folder : path) : M unit :=
  let input_path := input_folder in
  let output_path := os_path_join output_folder ["final_output"] in
  e <- os_path_exists output_path ;;
  if negb e then ret tt
  else
    names <- os_listdir input_path ;;
    filenames <- image_files input_path names ;;
    let filenames := sort_names filenames in
    for_each filenames (visualize_one input_path output_path).

Section CustomPhotos.

Variable shell : string -> option path -> FS -> FS * Z.

(** [process_custom_photos(input_folder, output_folder, gpu_id,
    with_scratch, hr)]. *)
Definition process_custom_photos (input_folder output_folder : path)
    (gpu_id : Z) (with_scratch hr : bool) : M unit :=
  os_makedirs input_folder true ;;
  os_makedirs output_folder true ;;
  success <- restore_photos shell input_folder output_folder gpu_id
                            with_scratch hr ;;
  if success then visualize_results input_folder output_folder
  else ret tt.

End CustomPhotos.
(* ================================================================== *)
(** ** Predicates and sample worlds used by the properties *)

Definition run_py_path : path := os_path_join photo_restoration_dir ["run.py"].

(** A shell whose command changes nothing and exits with status 0. *)
Definition shell_idle : string -> option path -> FS -> FS * Z :=
  fun _ _ f => (f, 0%Z).

(** A file system without the engine, holding an earlier output. *)
(** The paths ["/tmp"], ["/tmp/in"] and ["/tmp/out"]. *)
Definition tmp : path := [EmptyString; "tmp"].
Definition tmp_in : path := os_path_join tmp ["in"].
Definition tmp_out : path := os_path_join tmp ["out"].

Definition fs_no_engine : FS :=
  [ (tmp, Dir); (tmp_out, Dir);
    (os_path_join tmp_out ["old.png"], File (Some (mkImage 4 4 ModeRGB))) ].



Definition square_100 : image := mkImage 100 100 ModeRGB.

(** No regular file sits on the way down from [pre] along [rest]. *)
Fixpoint dirs_or_absent (f : FS) (pre : path) (rest : list string) : bool :=
  match rest with
  | [] => true
  | c :: rest' =>
      match node_at f (pre ++ [c]) with
      | Some (File _) => false
      | _ => dirs_or_absent f (pre ++ [c]) rest'
      end
  end.

(** The file system has no entry at or below [d]. *)
Definition nothing_below (f : FS) (d : path) : bool :=
  forallb (fun e => negb (under d (fst e))) f.

(** [out] can serve as an output directory: it is not the root, no regular
    file is among its ancestors, and it is either a directory or absent
    together with everything below it. *)
Definition preparable (f : FS) (out : path) : bool :=
  match split_last out with
  | None => false
  | Some (parent, _) =>
      negb (path_eqb out [EmptyString])
      && dirs_or_absent f [] parent
      && (fs_isdir f out || nothing_below f out)
  end.

(** [out] is an existing directory with no entry and nothing below it. *)
Definition emptied (f : FS) (out : path) : Prop :=
  fs_isdir f out = true
  /\ fs_children f out = []
  /\ forall p, strictly_under out p = true -> node_at f p = None.

(** Every event the computation [m] adds to the trace satisfies [P]. *)
Definition appends {A} (P : event -> Prop) (m : M A) : Prop :=
  forall w r w', m w = (r, w') ->
    exists t, trace w' = trace w ++ t /\ Forall P t.

(** Every directory on the way down from [pre] along [rest] exists. *)
Fixpoint all_dirs (f : FS) (pre : path) (rest : list string) : bool :=
  match rest with
  | [] => true
  | c :: rest' =>
      match node_at f (pre ++ [c]) with
      | Some Dir => all_dirs f (pre ++ [c]) rest'
      | _ => false
      end
  end.

(** The trace of one [prepare_output] on a file system [f]. *)
Definition prepare_trace (f : FS) (out : path) : list event :=
  EvIsdir out :: (if fs_isdir f out then [EvRmtree out] else [])
  ++ [EvMakedirs out].

(** The entries [ensure_dirs] adds are directories on the way down. *)
Definition on_the_way (pre : path) (rest : list string) (e : path * node) :=
  snd e = Dir /\
  exists r1 r2, r1 <> [] /\ rest = r1 ++ r2 /\ fst e = pre ++ r1.

(** A file system [f'] that shows, at every path, what [f] shows, or
    nothing, or a directory. *)
Definition no_new_file (f f' : FS) : Prop :=
  forall p, node_at f' p = node_at f p \/ node_at f' p = None
            \/ node_at f' p = Some Dir.

(** [f2] differs from [f] at most at or below [out], where it still has a
    directory: what a run that writes its artifacts into [out] leaves. *)
Definition written_below (out : path) (f f2 : FS) : Prop :=
  fs_isdir f2 out = true
  /\ forall p, under out p = false -> node_at f2 p = node_at f p.











Definition is_run (e : event) : bool :=
  match e with
  | EvRun _ _ _ => true
  | _ => false
  end.

(** An event other than a run of the shell. *)
Definition not_run (e : event) : Prop := is_run e = false.


(** An uploaded photo and a file system with the engine in place. *)
Definition uploads : path := [EmptyString; "uploads"].
Definition photo_a : path := os_path_join uploads ["a.jpg"].

Definition fs_engine_ready : FS :=
  [ (photo_restoration_dir, Dir);
    (run_py_path, File None);
    (tmp, Dir);
    (uploads, Dir);
    (photo_a, File (Some (mkImage 10 10 ModeRGB))) ].



(** The same batch, run with an engine that exits with status 0 and
    leaves no [final_output] directory. *)
Definition idle_batch_run : outcome (list item) * World :=
  process_multiple_images shell_idle tmp ["aaa"] (Some [Some photo_a])
    false false false (mkWorld fs_engine_ready []).

(** The command of these two runs. *)
Definition batch_command : string :=
  "python run.py --input_folder /tmp/tmpaaa/input --output_folder /tmp/tmpaaa/output --GPU -1".

(** The pairs of images [make_grid] can lay side by side: an original of
    at least one pixel, which is single-band, or has three or four bands
    like the restored image. *)
Definition composable (I1 I2 : image) : bool :=
  (1 <=? im_width I1)%Z && (1 <=? im_height I1)%Z
  && match im_mode I1 with
     | ModeL => true
     | ModeLA => false
     | ModeRGB | ModeRGBA => (3 <=? bands (im_mode I2))%Z
     end.

(** The mode of the canvas [make_grid] builds for an original. *)
Definition canvas_mode (I1 : image) : mode :=
  if (3 <=? ndim I1)%Z then ModeRGB else ModeL.

(* ================================================================== *)
(** ** Further predicates and sample worlds *)

(** Between [f] and [f'], the node at [p] is unchanged, or [p] was absent
    and has become a directory on the way down to [out]. *)
Definition kept_or_made_dir (out : path) (f f' : FS) (p : path) : Prop :=
  node_at f' p = node_at f p
  \/ (node_at f p = None /\ node_at f' p = Some Dir /\ under p out = true).

(** An input folder inside the output folder, with one photo. *)
Definition nested_in : path := os_path_join tmp_out ["in"].

Definition fs_nested_input : FS :=
  [ (photo_restoration_dir, Dir);
    (run_py_path, File None);
    (tmp, Dir); (tmp_out, Dir); (nested_in, Dir);
    (os_path_join nested_in ["a.jpg"], File (Some (mkImage 10 10 ModeRGB))) ].


(** The download path of the single-image driver. *)
Definition download_path (timestamp : string) : path :=
  ["downloads"; ("restored_photo_" ++ timestamp ++ ".jpg")%string].

(** A shell that restores the one photo of a batch staged under
    [/tmp/tmpaaa]: it fills [final_output] and exits with status 0. *)
Definition staged_output : path :=
  os_path_join tmp ["tmpaaa"; "output"; "final_output"].


(** The same, for the single-image driver. *)
Definition shell_restoring_single : string -> option path -> FS -> FS * Z :=
  fun _ _ f =>
    (f ++ [ (staged_output, Dir);
            (os_path_join staged_output [uploaded_name],
             File (Some (mkImage 10 10 ModeRGB))) ],
     0%Z).

(** A single-image run whose engine restores the photo. *)
Definition single_run : outcome single_result * World :=
  process_single_image shell_restoring_single tmp ["aaa"] "20240101_000000"
    (Some square_100) false false false (mkWorld fs_engine_ready []).

(** A decimal digit. *)
Definition is_digit (c : ascii) : bool :=
  let n := nat_of_ascii c in Nat.leb 48 n && Nat.leb n 57.



(** The computation [m] leaves the file system as it was. *)
Definition reads_only {A} (m : M A) : Prop :=
  forall w r w', m w = (r, w') -> fs w' = fs w.

(** The computation [m] changes the node of no path outside [S]. *)
Definition changes_only {A} (S : path -> Prop) (m : M A) : Prop :=
  forall w r w' p, m w = (r, w') -> ~ S p ->
    node_at (fs w') p = node_at (fs w) p.

(** The path of the comparison of [name] below [output_folder]. *)
Definition comparison_path (output_folder : path) (name : string) : path :=
  os_path_join (os_path_join output_folder ["final_output"])
    [("comparison_" ++ name)%string].

Definition is_comparison_path (output_folder p : path) : Prop :=
  exists name, p = comparison_path output_folder name.



(** A folder of two photos and an output folder with their restored
    images. *)
Definition album : path := [EmptyString; "album"].
Definition album_out : path := [EmptyString; "restored"].
Definition album_final : path := os_path_join album_out ["final_output"].

Definition fs_album : FS :=
  [ (album, Dir); (album_out, Dir); (album_final, Dir);
    (os_path_join album ["b.PNG"], File (Some (mkImage 100 100 ModeRGB)));
    (os_path_join album ["a.jpg"], File (Some (mkImage 100 100 ModeL)));
    (os_path_join album ["notes.txt"], File None);
    (os_path_join album_final ["a.jpg"], File (Some (mkImage 50 50 ModeRGB)));
    (os_path_join album_final ["b.PNG"], File (Some (mkImage 50 50 ModeL))) ].

(** [p] is a regular file on [f]. *)
Definition is_file_at (f : FS) (p : path) : bool :=
  match node_at f p with Some (File _) => true | _ => false end.


(** The saving of an image. *)
Definition is_save (e : event) : bool :=
  match e with
  | EvSave _ => true
  | _ => false
  end.

(** An event other than the saving of an image. *)
Definition not_save (e : event) : Prop := is_save e = false.

(** A file system with the engine and the album, and a shell that restores
    the photo [a.jpg] of the album into [/restored/final_output]. *)
Definition fs_album_engine : FS :=
  [ (photo_restoration_dir, Dir);
    (run_py_path, File None);
    (album, Dir);
    (os_path_join album ["a.jpg"], File (Some (mkImage 100 100 ModeL))) ].

Definition shell_album : string -> option path -> FS -> FS * Z :=
  fun _ _ f =>
    (f ++ [ (album_final, Dir);
            (os_path_join album_final ["a.jpg"],
             File (Some (mkImage 50 50 ModeRGB))) ],
     0%Z).

(** The album processed with this engine. *)
Definition custom_run : outcome unit * World :=
  process_custom_photos shell_album album album_out (-1) true true
    (mkWorld fs_album_engine []).

(** Folders processed without the engine, next to an earlier output. *)
Definition custom_run_without_engine : outcome unit * World :=
  process_custom_photos shell_idle tmp_in tmp_out (-1) true true
    (mkWorld fs_no_engine []).

(** A photo with an alpha channel. *)
Definition has_alpha (im : image) : bool :=
  match im_mode im with
  | ModeLA | ModeRGBA => true
  | ModeL | ModeRGB => false
  end.

(** A cut-out with transparency, and its run through the single-image
    driver. *)
Definition cutout_100 : image := mkImage 100 100 ModeRGBA.

Definition alpha_run : outcome single_result * World :=
  process_single_image shell_restoring_single tmp ["aaa"] "20240101_000000"
    (Some cutout_100) false false false (mkWorld fs_engine_ready []).
(* ================================================================== *)
(** * Properties *)

Unset Implicit Arguments.

(** ** Running monadic code *)

Lemma bind_Val {A B} (m : M A) (k : A -> M B) w a w1 :
  m w = (Val a, w1) -> bind m k w = k a w1.
Proof. intros E. unfold bind. now rewrite E. Qed.

(** A run of [bind] that returns has run both parts. *)
Lemma bind_inv {A B} (m : M A) (k : A -> M B) w b w2 :
  bind m k w = (Val b, w2) ->
  exists a w1, m w = (Val a, w1) /\ k a w1 = (Val b, w2).
Proof.
  unfold bind. destruct (m w) as [[a|e] w1]; intros E.
  - now exists a, w1.
  - discriminate.
Qed.

Lemma os_path_exists_run p w :
  os_path_exists p w =
  (Val (fs_exists (fs w) p), mkWorld (fs w) (trace w ++ [EvExists p])).
Proof. reflexivity. Qed.

Lemma os_path_isdir_run p w :
  os_path_isdir p w =
  (Val (fs_isdir (fs w) p), mkWorld (fs w) (trace w ++ [EvIsdir p])).
Proof. reflexivity. Qed.

(** ** C10: an absent input is a no-op *)

(** C10. [process_single_image] called with [image = None] returns
    [(None, None, None)], and [process_multiple_images] called with [None]
    or with the empty list returns the empty list; in each case the world is
    left as it was: the file system is unchanged and the trace records no
    operation, so neither the engine was run nor any directory created,
    deleted or modified. *)
Theorem absent_input_is_noop :
  forall shell tempdir candidate_names timestamp
         (use_gpu with_scratch high_resolution : bool) (w : World),
    process_single_image shell tempdir candidate_names timestamp None
      use_gpu with_scratch high_resolution w = (Val (None, None, None), w)
    /\ process_multiple_images shell tempdir candidate_names None
         use_gpu with_scratch high_resolution w = (Val [], w)
    /\ process_multiple_images shell tempdir candidate_names (Some [])
         use_gpu with_scratch high_resolution w = (Val [], w).
Proof. intros. repeat split. Qed.

(** ** C9: a missing engine set-up is detected before anything is changed *)

(** C9. When the directory [photo_restoration] or its script [run.py] does
    not exist, [restore_photos] returns [False], the file system is exactly
    what it was (the output directory is neither deleted nor recreated), and
    every operation the call performed is a read-only query: in particular
    the engine was not run. *)
Theorem setup_missing_changes_nothing :
  forall shell (input_folder output_folder : path) (gpu_id : Z)
         (with_scratch hr : bool) (w : World),
    fs_exists (fs w) photo_restoration_dir = false \/
    fs_exists (fs w) run_py_path = false ->
    exists t,
      restore_photos shell input_folder output_folder gpu_id with_scratch hr w
      = (Val false, mkWorld (fs w) (trace w ++ t))
      /\ forallb is_query t = true.
Proof.
  intros shell i o g s h w H.
  unfold restore_photos.
  destruct (fs_exists (fs w) photo_restoration_dir) eqn:E1.
  - destruct H as [H|H]; [discriminate|].
    exists [EvExists photo_restoration_dir; EvExists run_py_path]. split; [|reflexivity].
    erewrite bind_Val by apply os_path_exists_run. rewrite E1. cbn [negb].
    erewrite bind_Val by apply os_path_exists_run. cbn [fs].
    fold run_py_path. rewrite H. cbn. now rewrite <- app_assoc.
  - exists [EvExists photo_restoration_dir]. split; [|reflexivity].
    erewrite bind_Val by apply os_path_exists_run. now rewrite E1.
Qed.

(** An instance: a file system without the engine, holding an earlier
    output. *)
Lemma setup_missing_changes_nothing_witness :
  exists t,
    restore_photos shell_idle tmp_in tmp_out (-1)
      false false (mkWorld fs_no_engine [])
    = (Val false, mkWorld fs_no_engine ([] ++ t))
    /\ forallb is_query t = true.
Proof.
  apply (setup_missing_changes_nothing shell_idle tmp_in
           tmp_out (-1) false false (mkWorld fs_no_engine [])).
  left. reflexivity.
Defined.

(** ** C3, C4: the size of the comparison image *)

Lemma and_then_inv {A B} (r : outcome A) (k : A -> outcome B) b :
  and_then r k = Val b -> exists a, r = Val a /\ k a = Val b.
Proof. destruct r as [a|e]; cbn; intros E; [now exists a | discriminate]. Qed.










(** The truncated double-precision product is not the exact quotient
    either: for a 7 x 21 original [21 * (600 / 14)] is just below 900. *)
Example H_new_7_21 : H_new 7 21 = Val 899%Z /\ (21 * 600 / (2 * 7) = 900)%Z.
Proof. split; vm_compute; reflexivity. Qed.




(** ** What a computation adds to the trace *)

Section Appends.

Variable P : event -> Prop.

Lemma appends_ret {A} (a : A) : appends P (ret a).
Proof.
  intros w r w' [= <- <-]. exists []. now rewrite app_nil_r.
Qed.

Lemma appends_raise {A} e : appends P (@raise A e).
Proof.
  intros w r w' [= <- <-]. exists []. now rewrite app_nil_r.
Qed.

Lemma appends_get_fs : appends P get_fs.
Proof.
  intros w r w' [= <- <-]. exists []. now rewrite app_nil_r.
Qed.

Lemma appends_put_fs f : appends P (put_fs f).
Proof.
  intros w r w' [= <- <-]. exists []. cbn. now rewrite app_nil_r.
Qed.

Lemma appends_log e : P e -> appends P (log e).
Proof.
  intros He w r w' [= <- <-]. exists [e]. cbn. split; auto.
Qed.

Lemma appends_bind {A B} (m : M A) (k : A -> M B) :
  appends P m -> (forall a, appends P (k a)) -> appends P (bind m k).
Proof.
  intros Hm Hk w r w'. unfold bind.
  destruct (m w) as [[a|e] w1] eqn:Em; intros E.
  - destruct (Hm _ _ _ Em) as (t1 & E1 & F1).
    destruct (Hk a _ _ _ E) as (t2 & E2 & F2).
    exists (t1 ++ t2). rewrite E2, E1, app_assoc. split; auto.
    apply Forall_app. now split.
  - injection E as <- <-. exact (Hm _ _ _ Em).
Qed.

Lemma appends_for_each {A} (xs : list A) (body : A -> M unit) :
  (forall x, appends P (body x)) -> appends P (for_each xs body).
Proof.
  intros Hb. induction xs as [|x xs IH]; cbn.
  - apply appends_ret.
  - apply appends_bind; auto.
Qed.

End Appends.

(** One step of the analysis of a computation's trace. *)
Ltac appends_step :=
  lazymatch goal with
  | |- appends _ (bind _ _) => apply appends_bind; [|intros ?]
  | |- appends _ (ret _) => apply appends_ret
  | |- appends _ (raise _) => apply appends_raise
  | |- appends _ get_fs => apply appends_get_fs
  | |- appends _ (put_fs _) => apply appends_put_fs
  | |- appends _ (log _) => apply appends_log
  | |- appends _ (for_each _ _) => apply appends_for_each; intros ?
  | |- appends _ (match ?x with _ => _ end) => destruct x
  end.

Lemma appends_os_path_exists P p :
  P (EvExists p) -> appends P (os_path_exists p).
Proof. intros. unfold os_path_exists. repeat appends_step. auto. Qed.

Lemma appends_os_path_isdir P p :
  P (EvIsdir p) -> appends P (os_path_isdir p).
Proof. intros. unfold os_path_isdir. repeat appends_step. auto. Qed.

Lemma appends_os_listdir P p :
  P (EvListdir p) -> appends P (os_listdir p).
Proof. intros. unfold os_listdir. repeat appends_step. auto. Qed.

Lemma appends_os_makedirs P p exist_ok :
  P (EvMakedirs p) -> appends P (os_makedirs p exist_ok).
Proof. intros. unfold os_makedirs. repeat appends_step. auto. Qed.

Lemma appends_shutil_rmtree P p :
  P (EvRmtree p) -> appends P (shutil_rmtree p).
Proof. intros. unfold shutil_rmtree. repeat appends_step. auto. Qed.

Lemma appends_write_file P p c : appends P (write_file p c).
Proof. unfold write_file. repeat appends_step. Qed.

Lemma appends_Image_open P p :
  P (EvOpen p) -> appends P (Image_open p).
Proof. intros. unfold Image_open. repeat appends_step. auto. Qed.

Lemma appends_Image_save_jpeg P im p :
  P (EvSave p) -> appends P (Image_save_jpeg im p).
Proof.
  intros. unfold Image_save_jpeg.
  appends_step; [appends_step; auto|].
  destruct (im_mode im); first [apply appends_write_file | apply appends_raise].
Qed.

Lemma appends_shutil_copy2 P src dst :
  P (EvCopy src dst) -> appends P (shutil_copy2 src dst).
Proof.
  intros. unfold shutil_copy2.
  appends_step; [appends_step; auto|].
  appends_step; [appends_step|].
  destruct (node_at a0 src) as [[c|]|];
    first [apply appends_write_file | apply appends_raise].
Qed.

(** ** Paths and file systems *)

Lemma path_eqb_eq p q : path_eqb p q = true <-> p = q.
Proof.
  revert q. induction p as [|a p IH]; intros [|b q]; cbn; try easy.
  rewrite andb_true_iff, String.eqb_eq, IH. split.
  - now intros [-> ->].
  - now intros [= -> ->].
Qed.

Lemma path_eqb_refl p : path_eqb p p = true.
Proof. now apply path_eqb_eq. Qed.

Lemma path_eqb_neq p q : path_eqb p q = false <-> p <> q.
Proof.
  rewrite <- path_eqb_eq. destruct (path_eqb p q); split; congruence.
Qed.

Lemma under_refl d : under d d = true.
Proof. induction d as [|a d IH]; cbn; [easy|]. now rewrite String.eqb_refl. Qed.

(** [p] is at or below [d] exactly when [d] is a prefix of [p]. *)
Lemma under_iff d p : under d p = true <-> exists rest, p = d ++ rest.
Proof.
  revert p. induction d as [|a d IH]; intros p; cbn.
  - split; [now exists p | easy].
  - destruct p as [|b p]; [split; [easy | now intros [? ?]]|].
    rewrite andb_true_iff, String.eqb_eq, IH. split.
    + intros [-> [rest ->]]. now exists rest.
    + intros [rest [= -> ->]]. split; [easy | now exists rest].
Qed.

(** A proper prefix of [d] is not below [d]. *)
Lemma under_proper_prefix q rest :
  rest <> [] -> under (q ++ rest) q = false.
Proof.
  intros Hr. destruct (under (q ++ rest) q) eqn:E; [|easy].
  apply under_iff in E as [r E]. exfalso.
  assert (L : length q = length ((q ++ rest) ++ r)) by now rewrite <- E.
  rewrite !length_app in L. destruct rest; [easy | cbn in L; lia].
Qed.

Lemma child_name_under d p n : child_name d p = Some n -> under d p = true.
Proof.
  revert p. induction d as [|a d IH]; intros p; cbn; [easy|].
  destruct p as [|b p]; [easy|].
  destruct (String.eqb a b); [cbn; apply IH | easy].
Qed.

Lemma child_name_self d : child_name d d = None.
Proof.
  induction d as [|a d IH]; cbn; [easy|]. now rewrite String.eqb_refl.
Qed.

Lemma split_last_inv p parent n :
  split_last p = Some (parent, n) -> p = parent ++ [n].
Proof.
  revert parent n. induction p as [|c p IH]; intros parent n; [easy|].
  destruct p as [|c' p'].
  - cbn. now intros [= <- <-].
  - change (split_last (c :: c' :: p'))
      with (match split_last (c' :: p') with
            | Some (d, n) => Some (c :: d, n)
            | None => None
            end).
    destruct (split_last (c' :: p')) as [[d m]|] eqn:E; [|easy].
    intros [= <- <-]. cbn. f_equal. now apply IH.
Qed.

Lemma assoc_app_l f g p n : assoc f p = Some n -> assoc (f ++ g) p = Some n.
Proof.
  induction f as [|[q m] f IH]; cbn; [easy|].
  destruct (path_eqb q p); auto.
Qed.

Lemma assoc_app_r f g p : assoc f p = None -> assoc (f ++ g) p = assoc g p.
Proof.
  induction f as [|[q m] f IH]; cbn; [easy|].
  destruct (path_eqb q p); [easy | auto].
Qed.

(** A path that is not the root is looked up in the entries. *)
Lemma node_at_assoc f p : p <> [EmptyString] -> node_at f p = assoc f p.
Proof.
  intros Hp. unfold node_at.
  destruct p as [|[|c s] [|b p]]; try reflexivity. now elim Hp.
Qed.

Lemma node_at_app_l f g p n :
  node_at f p = Some n -> node_at (f ++ g) p = Some n.
Proof.
  destruct (list_eq_dec string_dec p [EmptyString]) as [->|Hp]; [easy|].
  rewrite !node_at_assoc by easy. apply assoc_app_l.
Qed.

Lemma node_at_app_r f g p :
  node_at f p = None -> node_at (f ++ g) p = node_at g p.
Proof.
  destruct (list_eq_dec string_dec p [EmptyString]) as [->|Hp]; [easy|].
  rewrite !node_at_assoc by easy. apply assoc_app_r.
Qed.

Lemma nothing_below_assoc f d p :
  nothing_below f d = true -> under d p = true -> assoc f p = None.
Proof.
  unfold nothing_below. intros H Hu.
  induction f as [|[q m] f IH]; cbn in *; [easy|].
  apply andb_prop in H as [Hq H].
  destruct (path_eqb q p) eqn:E.
  - apply path_eqb_eq in E. subst q. now rewrite Hu in Hq.
  - auto.
Qed.

Lemma nothing_below_children f d :
  nothing_below f d = true -> fs_children f d = [].
Proof.
  unfold nothing_below.
  induction f as [|[q m] f IH]; cbn; [easy|]. intros H.
  apply andb_prop in H as [Hq H].
  destruct (child_name d q) eqn:E; [|auto].
  apply child_name_under in E. now rewrite E in Hq.
Qed.

Lemma nothing_below_app f g d :
  nothing_below (f ++ g) d = nothing_below f d && nothing_below g d.
Proof. apply forallb_app. Qed.

Lemma nothing_below_remove_tree f d :
  nothing_below (fs_remove_tree f d) d = true.
Proof.
  unfold nothing_below, fs_remove_tree.
  apply forallb_forall. intros e He. now apply filter_In in He.
Qed.

Lemma remove_tree_nothing_below f d :
  nothing_below f d = true -> fs_remove_tree f d = f.
Proof.
  unfold nothing_below, fs_remove_tree.
  induction f as [|e f IH]; cbn; [easy|]. intros H.
  apply andb_prop in H as [He H]. rewrite He. now rewrite IH.
Qed.

Lemma remove_tree_app f g d :
  fs_remove_tree (f ++ g) d = fs_remove_tree f d ++ fs_remove_tree g d.
Proof. apply filter_app. Qed.

Lemma fs_children_app f g d :
  fs_children (f ++ g) d = fs_children f d ++ fs_children g d.
Proof.
  induction f as [|[q m] f IH]; cbn; [easy|].
  destruct (child_name d q); cbn; now rewrite IH.
Qed.

(** Removing a tree leaves the nodes outside it as they were, and can only
    make a node absent. *)
Lemma assoc_remove_tree f d p :
  assoc (fs_remove_tree f d) p = if under d p then None else assoc f p.
Proof.
  unfold fs_remove_tree.
  induction f as [|[q m] f IH]; cbn.
  - now destruct (under d p).
  - destruct (under d q) eqn:Eq; cbn.
    + rewrite IH. destruct (path_eqb q p) eqn:E; [|easy].
      apply path_eqb_eq in E. subst q. now rewrite Eq.
    + destruct (path_eqb q p) eqn:E.
      * apply path_eqb_eq in E. subst q. now rewrite Eq.
      * exact IH.
Qed.

Lemma node_at_remove_tree_outside f d p :
  under d p = false -> node_at (fs_remove_tree f d) p = node_at f p.
Proof.
  intros Hu.
  destruct (list_eq_dec string_dec p [EmptyString]) as [->|Hp]; [easy|].
  rewrite !node_at_assoc by easy. now rewrite assoc_remove_tree, Hu.
Qed.

Lemma node_at_remove_tree_weak f d p :
  node_at (fs_remove_tree f d) p = node_at f p
  \/ node_at (fs_remove_tree f d) p = None.
Proof.
  destruct (list_eq_dec string_dec p [EmptyString]) as [->|Hp]; [now left|].
  rewrite !node_at_assoc by easy. rewrite assoc_remove_tree.
  destruct (under d p); auto.
Qed.

(** ** [os.makedirs] *)

Lemma ensure_dirs_extends rest : forall f pre f2 b,
  ensure_dirs f pre rest = (f2, b) ->
  exists added, f2 = f ++ added /\ Forall (on_the_way pre rest) added.
Proof.
  induction rest as [|c rest IH]; intros f pre f2 b; cbn.
  - intros [= <- <-]. exists []. now rewrite app_nil_r.
  - assert (Hstep : forall added,
               Forall (on_the_way (pre ++ [c]) rest) added ->
               Forall (on_the_way pre (c :: rest)) added).
    { intros added. apply Forall_impl. intros e (Hd & r1 & r2 & _ & -> & He).
      split; [easy|]. exists (c :: r1), r2. repeat split; [easy|].
      now rewrite He, <- app_assoc. }
    destruct (node_at f (pre ++ [c])) as [[x|]|] eqn:E.
    + intros [= <- <-]. exists []. now rewrite app_nil_r.
    + intros H. apply IH in H as (added & -> & F). exists added. auto.
    + intros H. apply IH in H as (added & -> & F).
      exists ((pre ++ [c], Dir) :: added). rewrite <- app_assoc. split; [easy|].
      constructor; [|auto]. split; [easy|]. now exists [c], rest.
Qed.

Lemma assoc_dirs g p :
  Forall (fun e : path * node => snd e = Dir) g ->
  assoc g p = None \/ assoc g p = Some Dir.
Proof.
  induction 1 as [|[q m] g Hq _ IH]; cbn; [now left|].
  cbn in Hq. subst m. destruct (path_eqb q p); auto.
Qed.

Lemma no_new_file_app_dirs f g :
  Forall (fun e : path * node => snd e = Dir) g -> no_new_file f (f ++ g).
Proof.
  intros Hg p. destruct (node_at f p) as [n|] eqn:E.
  - left. now apply node_at_app_l.
  - rewrite node_at_app_r by easy.
    destruct (list_eq_dec string_dec p [EmptyString]) as [->|Hp]; [now right; right|].
    rewrite node_at_assoc by easy.
    destruct (assoc_dirs g p Hg) as [->| ->]; auto.
Qed.

Lemma no_new_file_remove_tree f d : no_new_file f (fs_remove_tree f d).
Proof.
  intros p. destruct (node_at_remove_tree_weak f d p); auto.
Qed.

Lemma dirs_or_absent_mono f f' rest : forall pre,
  no_new_file f f' ->
  dirs_or_absent f pre rest = true -> dirs_or_absent f' pre rest = true.
Proof.
  induction rest as [|c rest IH]; intros pre Hf; cbn; [easy|].
  destruct (Hf (pre ++ [c])) as [-> | [-> | ->]].
  - destruct (node_at f (pre ++ [c])) as [[x|]|]; auto.
  - destruct (node_at f (pre ++ [c])) as [[x|]|]; auto. easy.
  - destruct (node_at f (pre ++ [c])) as [[x|]|]; auto. easy.
Qed.

Lemma ensure_dirs_flag rest : forall f pre,
  dirs_or_absent f pre rest = true -> snd (ensure_dirs f pre rest) = true.
Proof.
  induction rest as [|c rest IH]; intros f pre; cbn; [easy|].
  destruct (node_at f (pre ++ [c])) as [[x|]|] eqn:E; [easy | apply IH |].
  intros H. apply IH. revert H. apply dirs_or_absent_mono.
  apply no_new_file_app_dirs. now constructor.
Qed.

Lemma all_dirs_app f g rest : forall pre,
  all_dirs f pre rest = true -> all_dirs (f ++ g) pre rest = true.
Proof.
  induction rest as [|c rest IH]; intros pre; cbn; [easy|].
  destruct (node_at f (pre ++ [c])) as [[x|]|] eqn:E; try easy.
  rewrite (node_at_app_l _ g _ _ E). apply IH.
Qed.

Lemma ensure_dirs_all_dirs rest : forall f pre f2,
  ensure_dirs f pre rest = (f2, true) -> all_dirs f2 pre rest = true.
Proof.
  induction rest as [|c rest IH]; intros f pre f2; cbn; [easy|].
  destruct (node_at f (pre ++ [c])) as [[x|]|] eqn:E; [easy | |]; intros H.
  - destruct (ensure_dirs_extends _ _ _ _ _ H) as (added & -> & _).
    rewrite (node_at_app_l _ added _ _ E). now apply IH in H.
  - destruct (ensure_dirs_extends _ _ _ _ _ H) as (added & E2 & _).
    assert (Ep : node_at (f ++ [(pre ++ [c], Dir)]) (pre ++ [c]) = Some Dir).
    { rewrite node_at_app_r by easy.
      destruct (list_eq_dec string_dec (pre ++ [c]) [EmptyString]) as [Hp|Hp].
      - now rewrite Hp.
      - rewrite node_at_assoc by easy. cbn. now rewrite path_eqb_refl. }
    rewrite E2. rewrite (node_at_app_l _ added _ _ Ep). rewrite <- E2.
    now apply IH in H.
Qed.

Lemma all_dirs_ensure_dirs rest : forall f pre,
  all_dirs f pre rest = true -> ensure_dirs f pre rest = (f, true).
Proof.
  induction rest as [|c rest IH]; intros f pre; cbn; [easy|].
  destruct (node_at f (pre ++ [c])) as [[x|]|]; try easy. apply IH.
Qed.

Lemma all_dirs_dirs_or_absent rest : forall f pre,
  all_dirs f pre rest = true -> dirs_or_absent f pre rest = true.
Proof.
  induction rest as [|c rest IH]; intros f pre; cbn; [easy|].
  destruct (node_at f (pre ++ [c])) as [[x|]|]; try easy. apply IH.
Qed.

(** [os.makedirs(out)] where nothing is at or below [out] and no regular
    file is among its ancestors: the missing ancestors are added, then
    [out]. *)
Lemma os_makedirs_fresh f t out parent name :
  split_last out = Some (parent, name) ->
  out <> [EmptyString] ->
  dirs_or_absent f [] parent = true ->
  nothing_below f out = true ->
  exists added,
    os_makedirs out false (mkWorld f t)
    = (Val tt, mkWorld (f ++ added ++ [(out, Dir)]) (t ++ [EvMakedirs out]))
    /\ nothing_below (f ++ added) out = true
    /\ all_dirs (f ++ added) [] parent = true
    /\ (all_dirs f [] parent = true -> added = []).
Proof.
  intros Hs Hroot Hd Hn.
  pose proof (split_last_inv _ _ _ Hs) as Hout.
  destruct (ensure_dirs f [] parent) as [f1 ok] eqn:E.
  pose proof (ensure_dirs_flag parent f [] Hd) as Hok.
  rewrite E in Hok. cbn in Hok. subst ok.
  destruct (ensure_dirs_extends _ _ _ _ _ E) as (added & -> & Hadd).
  assert (Hn1 : nothing_below (f ++ added) out = true).
  { rewrite nothing_below_app, Hn. cbn. unfold nothing_below.
    apply forallb_forall. intros e He.
    rewrite Forall_forall in Hadd.
    destruct (Hadd e He) as (_ & r1 & r2 & Hr1 & Hp & Hfst).
    cbn in Hfst. rewrite Hfst, Hout, Hp, <- app_assoc.
    rewrite under_proper_prefix; [easy|]. now destruct r2. }
  exists added. repeat split;
    [|easy | now apply ensure_dirs_all_dirs in E |].
  2:{ intros Hall. rewrite (all_dirs_ensure_dirs _ _ _ Hall) in E.
      injection E as E. rewrite <- (app_nil_r f) in E at 1.
      now apply app_inv_head in E. }
  unfold os_makedirs, bind, log, get_fs, put_fs. cbn.
  rewrite Hs, E. cbn.
  rewrite node_at_assoc by easy.
  rewrite (nothing_below_assoc _ _ _ Hn1 (under_refl out)).
  now rewrite <- app_assoc.
Qed.

(** ** C7: preparing the output directory *)

Lemma emptied_after_mkdir f out :
  out <> [EmptyString] -> out <> [] ->
  nothing_below f out = true -> emptied (f ++ [(out, Dir)]) out.
Proof.
  intros Hroot Hnil Hn. repeat split.
  - unfold fs_isdir. rewrite node_at_assoc by easy.
    rewrite assoc_app_r by (apply (nothing_below_assoc _ _ _ Hn), under_refl).
    cbn. now rewrite path_eqb_refl.
  - rewrite fs_children_app, nothing_below_children by easy. cbn.
    now rewrite child_name_self.
  - intros p Hp. unfold strictly_under in Hp.
    apply andb_prop in Hp as [Hu Hne].
    assert (p <> [EmptyString]).
    { intros ->. apply under_iff in Hu as [rest Hr].
      destruct out as [|a [|b out]]; [easy | | easy].
      cbn in Hr. injection Hr as <- _. now elim Hroot. }
    rewrite node_at_assoc by easy.
    rewrite assoc_app_r by now apply (nothing_below_assoc _ _ _ Hn).
    cbn. destruct (path_eqb out p); [easy | reflexivity].
Qed.

(** One [prepare_output] on a preparable path: what the file system and the
    trace become. *)
Lemma prepare_output_run out w :
  preparable (fs w) out = true ->
  exists added,
    prepare_output out w
    = (Val tt,
       mkWorld (fs_remove_tree (fs w) out ++ added ++ [(out, Dir)])
               (trace w ++ prepare_trace (fs w) out))
    /\ nothing_below (fs_remove_tree (fs w) out ++ added) out = true
    /\ (exists parent name,
          split_last out = Some (parent, name)
          /\ all_dirs (fs_remove_tree (fs w) out ++ added) [] parent = true
          /\ (all_dirs (fs_remove_tree (fs w) out) [] parent = true ->
              added = []))
    /\ out <> [EmptyString] /\ out <> [].
Proof.
  destruct w as [f t]. cbn [fs trace]. unfold preparable.
  destruct (split_last out) as [[parent name]|] eqn:Hs; [|easy].
  intros H. apply andb_prop in H as [H Hcase]. apply andb_prop in H as [Hroot Hd].
  apply negb_true_iff, path_eqb_neq in Hroot.
  assert (Hnil : out <> []) by (intros ->; discriminate).
  assert (Hd' : dirs_or_absent (fs_remove_tree f out) [] parent = true).
  { revert Hd. apply dirs_or_absent_mono, no_new_file_remove_tree. }
  destruct (os_makedirs_fresh (fs_remove_tree f out)
              (t ++ EvIsdir out
                 :: (if fs_isdir f out then [EvRmtree out] else []))
              out parent name Hs Hroot Hd' (nothing_below_remove_tree f out))
    as (added & Erun & Hn & Hall & Hnone).
  exists added. repeat split; try easy; [|now exists parent, name].
  unfold prepare_output.
  erewrite bind_Val by apply os_path_isdir_run. cbn [fs trace].
  unfold prepare_trace.
  destruct (fs_isdir f out) eqn:Edir.
  - unfold fs_isdir in Edir.
    destruct (node_at f out) as [[x|]|] eqn:En; try easy.
    assert (Erm : shutil_rmtree out (mkWorld f (t ++ [EvIsdir out]))
                  = (Val tt, mkWorld (fs_remove_tree f out)
                                     ((t ++ [EvIsdir out]) ++ [EvRmtree out]))).
    { unfold shutil_rmtree, bind, log, get_fs, put_fs. cbn. now rewrite En. }
    erewrite bind_Val by exact Erm.
    rewrite <- !app_assoc in *. cbn in *. exact Erun.
  - cbn in Hcase. rewrite (remove_tree_nothing_below _ _ Hcase) in *.
    erewrite bind_Val by reflexivity.
    rewrite <- !app_assoc in *. cbn in *. exact Erun.
Qed.

Lemma all_dirs_outside out f f2 rest : forall pre,
  (forall p, under out p = false -> node_at f2 p = node_at f p) ->
  (exists tail, tail <> [] /\ out = pre ++ rest ++ tail) ->
  all_dirs f pre rest = true -> all_dirs f2 pre rest = true.
Proof.
  induction rest as [|c rest IH]; intros pre Hsame (tail & Ht & Hout); cbn;
    [easy|].
  assert (Hu : under out (pre ++ [c]) = false).
  { rewrite Hout.
    replace (pre ++ (c :: rest) ++ tail) with ((pre ++ [c]) ++ rest ++ tail)
      by now rewrite <- app_assoc.
    apply under_proper_prefix. now destruct rest. }
  rewrite (Hsame _ Hu).
  destruct (node_at f (pre ++ [c])) as [[x|]|]; try easy.
  apply IH; [easy|]. exists tail. split; [easy|].
  now rewrite Hout, <- app_assoc.
Qed.

Lemma preparable_of_all_dirs f out parent name :
  split_last out = Some (parent, name) ->
  out <> [EmptyString] ->
  all_dirs f [] parent = true ->
  fs_isdir f out = true ->
  preparable f out = true.
Proof.
  intros Hs Hroot Hall Hdir. unfold preparable. rewrite Hs, Hdir.
  rewrite (all_dirs_dirs_or_absent _ _ _ Hall).
  apply path_eqb_neq in Hroot. now rewrite Hroot.
Qed.

(** C7. On a path that can serve as an output directory, the preparation
    step of [restore_photos] (delete the directory if it is there, then
    create it) returns normally and leaves the directory existing and empty,
    with nothing below it. Run a second time in a row it again returns
    normally and leaves exactly the same file system; run again after
    anything was written at or below the directory (the artifacts of the
    first job), it leaves the directory existing and empty once more. *)
Theorem prepare_output_idempotent :
  forall (out : path) (w : World),
    preparable (fs w) out = true ->
    exists w1,
      prepare_output out w = (Val tt, w1)
      /\ emptied (fs w1) out
      /\ (exists w2,
            prepare_output out w1 = (Val tt, w2)
            /\ fs w2 = fs w1
            /\ emptied (fs w2) out)
      /\ (forall f2 t2,
            written_below out (fs w1) f2 ->
            exists w3,
              prepare_output out (mkWorld f2 t2) = (Val tt, w3)
              /\ emptied (fs w3) out).
Proof.
  intros out w Hprep.
  destruct (prepare_output_run out w Hprep)
    as (added & Erun & Hn & (parent & name & Hs & Hall & _) & Hroot & Hnil).
  set (f1 := fs_remove_tree (fs w) out ++ added) in *.
  assert (Hfs1 : fs_remove_tree (fs w) out ++ added ++ [(out, Dir)]
                 = f1 ++ [(out, Dir)]) by (unfold f1; now rewrite app_assoc).
  rewrite Hfs1 in Erun.
  pose proof (emptied_after_mkdir f1 out Hroot Hnil Hn) as Hempty.
  eexists. split; [exact Erun|]. cbn [fs]. split; [exact Hempty|].
  assert (Hall1 : all_dirs (f1 ++ [(out, Dir)]) [] parent = true)
    by now apply all_dirs_app.
  split.
  - (* the second run in a row *)
    assert (Hprep1 : preparable (f1 ++ [(out, Dir)]) out = true).
    { apply (preparable_of_all_dirs _ _ parent name); try easy.
      apply Hempty. }
    destruct (prepare_output_run out
                (mkWorld (f1 ++ [(out, Dir)])
                         (trace w ++ prepare_trace (fs w) out)) Hprep1)
      as (added' & Erun' & Hn' & (parent' & name' & Hs' & _ & Hnone) & _).
    cbn [fs trace] in *.
    assert (Erm : fs_remove_tree (f1 ++ [(out, Dir)]) out = f1).
    { rewrite remove_tree_app, (remove_tree_nothing_below _ _ Hn).
      unfold fs_remove_tree. cbn. rewrite under_refl. cbn.
      apply app_nil_r. }
    rewrite Erm in *.
    rewrite Hs in Hs'. injection Hs' as <- <-.
    rewrite (Hnone Hall) in Erun'. cbn in Erun'.
    eexists. split; [exact Erun'|]. cbn [fs]. now split.
  - (* a run after artifacts were written below [out] *)
    intros f2 t2 [Hdir Hsame].
    assert (Hprep2 : preparable f2 out = true).
    { apply (preparable_of_all_dirs _ _ parent name); try easy.
      apply (all_dirs_outside out (f1 ++ [(out, Dir)])); try easy.
      exists [name]. split; [easy|].
      now rewrite (split_last_inv _ _ _ Hs). }
    destruct (prepare_output_run out (mkWorld f2 t2) Hprep2)
      as (added2 & Erun2 & Hn2 & _ & _).
    cbn [fs trace] in *.
    eexists. split; [exact Erun2|]. cbn [fs].
    rewrite app_assoc. now apply emptied_after_mkdir.
Qed.

(** An instance: the output directory [/tmp/out] holding an earlier
    output. *)
Lemma prepare_output_idempotent_witness :
  exists w1,
    prepare_output tmp_out (mkWorld fs_no_engine []) = (Val tt, w1)
    /\ emptied (fs w1) tmp_out
    /\ (exists w2,
          prepare_output tmp_out w1 = (Val tt, w2)
          /\ fs w2 = fs w1
          /\ emptied (fs w2) tmp_out)
    /\ (forall f2 t2,
          written_below tmp_out (fs w1) f2 ->
          exists w3,
            prepare_output tmp_out (mkWorld f2 t2) = (Val tt, w3)
            /\ emptied (fs w3) tmp_out).
Proof.
  apply (prepare_output_idempotent tmp_out (mkWorld fs_no_engine [])).
  vm_compute. reflexivity.
Defined.

(** ** Texts *)

Lemma chars_append a b :
  Str.chars (a ++ b)%string = Str.chars a ++ Str.chars b.
Proof.
  unfold Str.chars. induction a as [|c a IH]; cbn; [easy|]. now rewrite IH.
Qed.











(** ** C8: the engine command *)



Ltac appends_prim :=
  first [ apply appends_os_path_exists | apply appends_os_path_isdir
        | apply appends_os_listdir | apply appends_os_makedirs
        | apply appends_shutil_rmtree | apply appends_Image_open
        | apply appends_Image_save_jpeg | apply appends_shutil_copy2
        | apply appends_write_file ].

Ltac appends_go := repeat first [ appends_prim | appends_step ].


(** With the engine in place and a preparable output directory outside it,
    [restore_photos] prepares the directory, runs the command once, waits
    for its exit status and returns whether that status is zero. *)
Lemma restore_photos_run shell i o g ws hr w :
  fs_isdir (fs w) photo_restoration_dir = true ->
  fs_exists (fs w) run_py_path = true ->
  preparable (fs w) o = true ->
  under o photo_restoration_dir = false ->
  exists w0 w1 f' rc,
    fs w0 = fs w
    /\ prepare_output o w0 = (Val tt, w1)
    /\ shell (build_command i o g ws hr) (Some photo_restoration_dir) (fs w1)
       = (f', rc)
    /\ restore_photos shell i o g ws hr w
       = (Val (rc =? 0)%Z,
          mkWorld f' (trace w1 ++ [EvRun (build_command i o g ws hr)
                                         (Some photo_restoration_dir) rc])).
Proof.
  intros Hdir Hrun Hprep Hout.
  set (w0 := mkWorld (fs w) ((trace w ++ [EvExists photo_restoration_dir])
                             ++ [EvExists run_py_path])).
  destruct (prepare_output_run o w0 Hprep)
    as (added & Eprep & _ & _ & _ & _).
  set (F := fs_remove_tree (fs w0) o ++ added ++ [(o, Dir)]) in *.
  set (T := trace w0 ++ prepare_trace (fs w0) o) in *.
  destruct (shell (build_command i o g ws hr) (Some photo_restoration_dir) F)
    as [f' rc] eqn:Esh.
  exists w0, (mkWorld F T), f', rc. repeat split; [exact Eprep | exact Esh |].
  assert (Hnode : node_at F photo_restoration_dir = Some Dir).
  { unfold F. apply node_at_app_l.
    rewrite node_at_remove_tree_outside by easy. cbn [fs w0].
    unfold fs_isdir in Hdir.
    now destruct (node_at (fs w) photo_restoration_dir) as [[x|]|]. }
  unfold restore_photos.
  erewrite bind_Val by apply os_path_exists_run.
  assert (Hex : fs_exists (fs w) photo_restoration_dir = true).
  { unfold fs_exists, fs_isdir in *.
    now destruct (node_at (fs w) photo_restoration_dir). }
  rewrite Hex. cbn [negb].
  erewrite bind_Val by apply os_path_exists_run.
  cbn [fs]. fold run_py_path. rewrite Hrun. cbn [negb trace].
  fold w0. erewrite bind_Val by exact Eprep.
  unfold run_command, bind, get_fs, put_fs, log. cbn [fs trace].
  rewrite Hnode, Esh. cbn [fs trace].
  now destruct (rc =? 0)%Z.
Qed.






(** ** C5, C6: the resolver of [process_single_image] *)


Lemma os_listdir_run p w :
  node_at (fs w) p = Some Dir ->
  os_listdir p w
  = (Val (fs_children (fs w) p), mkWorld (fs w) (trace w ++ [EvListdir p])).
Proof.
  intros E. unfold os_listdir, bind, log, get_fs. cbn. now rewrite E.
Qed.













(** ** C1, C2: the batch driver *)

Lemma appends_prepare_output out : appends not_run (prepare_output out).
Proof.
  unfold prepare_output. appends_go; reflexivity.
Qed.

Lemma appends_copy_uploads input_dir files :
  appends not_run (copy_uploads input_dir files).
Proof.
  unfold copy_uploads. appends_step. destruct x as [i [file_path|]].
  - apply appends_shutil_copy2. reflexivity.
  - apply appends_ret.
Qed.

Lemma appends_load_result d i file_path :
  appends not_run (load_result d i file_path).
Proof.
  unfold load_result. destruct file_path as [file_path|]; [|apply appends_ret].
  appends_go; reflexivity.
Qed.

Lemma appends_load_results d files : forall results,
  appends not_run (load_results d files results).
Proof.
  induction files as [|[i file_path] files IH]; intros results; cbn.
  - apply appends_ret.
  - apply appends_bind; [apply appends_load_result | intros r; apply IH].
Qed.

(** Every run of [load_results] that returns has appended one entry per
    file. *)
Lemma load_results_length d files : forall results w rs w',
  load_results d files results w = (Val rs, w') ->
  length rs = length results + length files.
Proof.
  induction files as [|[i file_path] files IH]; intros results w rs w'; cbn.
  - intros [= <- <-]. lia.
  - intros E. apply bind_inv in E as (r & w1 & _ & E).
    apply IH in E. rewrite length_app in E. cbn in E. lia.
Qed.

Lemma enumerate_from_length {A} (xs : list A) : forall i,
  length (enumerate_from i xs) = length xs.
Proof. induction xs as [|x xs IH]; intros i; cbn; [easy|]. now rewrite IH. Qed.

(** What a [with tempfile.TemporaryDirectory()] block that returns has
    done: the directory was made, the body ran, the directory was removed. *)
Lemma with_TemporaryDirectory_inv {A} tempdir names (body : path -> M A)
    w a w' :
  with_TemporaryDirectory tempdir names body w = (Val a, w') ->
  exists temp_dir w1 w2,
    trace w1 = trace w ++ [EvMkdtemp temp_dir]
    /\ body temp_dir w1 = (Val a, w2)
    /\ trace w' = trace w2 ++ [EvRmtree temp_dir].
Proof.
  unfold with_TemporaryDirectory. intros E.
  apply bind_inv in E as (temp_dir & w1 & E1 & E).
  unfold finally in E. destruct (body temp_dir w1) as [r w2] eqn:Eb.
  injection E as -> <-.
  exists temp_dir, w1, w2. repeat split; [|easy].
  unfold mkdtemp, bind, get_fs, put_fs, log in E1. cbn in E1.
  destruct (first_free tempdir (fs w) names); [|discriminate].
  destruct (node_at (fs w) tempdir) as [[x|]|]; try discriminate.
  now injection E1 as <- <-.
Qed.

(** A batch run that returns: the temporary directory was made and filled
    without any run of the shell, [restore_photos] was called once, what
    followed made no run either, and the temporary directory was removed.
    When [restore_photos] returned [False], nothing at all was done between
    its return and the removal, and the result is one absent entry per file.
    When it returned [True], the result has one entry per file if the
    directory [final_output] exists, and is empty otherwise. *)
Lemma process_multiple_images_inv shell tempdir names files g s h w rs w' :
  files <> [] ->
  process_multiple_images shell tempdir names (Some files) g s h w
  = (Val rs, w') ->
  exists temp_dir t_a w5 success w6 t_b,
    trace w5 = trace w ++ EvMkdtemp temp_dir :: t_a
    /\ Forall not_run t_a
    /\ restore_photos shell (os_path_join temp_dir ["input"])
         (os_path_join temp_dir ["output"]) (if g then 0%Z else (-1)%Z) s h w5
       = (Val success, w6)
    /\ trace w' = trace w6 ++ t_b ++ [EvRmtree temp_dir]
    /\ Forall not_run t_b
    /\ (success = false ->
        rs = repeat absent_item (length files) /\ t_b = [])
    /\ (success = true ->
        if fs_exists (fs w6)
             (os_path_join (os_path_join temp_dir ["output"]) ["final_output"])
        then length rs = length files
        else rs = []).
Proof.
  intros Hne E. destruct files as [|f0 files']; [now elim Hne|].
  set (files := f0 :: files') in *.
  cbn [process_multiple_images] in E. fold files in E.
  apply with_TemporaryDirectory_inv in E as (tmpd & w1 & w2 & Et1 & Eb & Et2).
  apply bind_inv in Eb as (u1 & w3 & Emk1 & Eb).
  apply bind_inv in Eb as (u2 & w4 & Emk2 & Eb).
  apply bind_inv in Eb as (u3 & w5 & Ecp & Eb).
  apply bind_inv in Eb as (success & w6 & Erp & Eb).
  destruct (appends_os_makedirs not_run _ true eq_refl _ _ _ Emk1)
    as (ta1 & Ea1 & Fa1).
  destruct (appends_os_makedirs not_run _ true eq_refl _ _ _ Emk2)
    as (ta2 & Ea2 & Fa2).
  destruct (appends_copy_uploads _ _ _ _ _ Ecp) as (ta3 & Ea3 & Fa3).
  exists tmpd, (ta1 ++ ta2 ++ ta3), w5, success, w6.
  assert (Ht5 : trace w5 = trace w ++ EvMkdtemp tmpd :: ta1 ++ ta2 ++ ta3).
  { rewrite Ea3, Ea2, Ea1, Et1, <- !app_assoc. reflexivity. }
  assert (Fa : Forall not_run (ta1 ++ ta2 ++ ta3)).
  { repeat (apply Forall_app; split); easy. }
  destruct success; cbn [negb] in Eb.
  - apply bind_inv in Eb as (e & w7 & Eex & Eb).
    rewrite os_path_exists_run in Eex. injection Eex as <- <-.
    destruct (fs_exists (fs w6) _) eqn:Efinal.
    + destruct (appends_load_results _ _ _ _ _ _ Eb) as (tb & Eb' & Fb).
      cbn [trace] in Eb'.
      exists (EvExists (os_path_join (os_path_join tmpd ["output"])
                          ["final_output"]) :: tb).
      repeat split; try easy.
      * rewrite Et2, Eb', <- !app_assoc. reflexivity.
      * constructor; easy.
      * intros _. apply load_results_length in Eb.
        rewrite Eb. unfold enumerate. now rewrite enumerate_from_length.
    + injection Eb as <- <-. cbn [trace] in Et2.
      exists [EvExists (os_path_join (os_path_join tmpd ["output"])
                          ["final_output"])].
      repeat split; try easy.
      * rewrite Et2, <- !app_assoc. reflexivity.
      * now repeat constructor.
  - injection Eb as <- <-. exists [].
    repeat split; try easy.
Qed.

(** A batch result is empty or has one entry per submitted file. *)
Lemma batch_result_length shell tempdir names files g s h w rs w' :
  process_multiple_images shell tempdir names (Some files) g s h w
  = (Val rs, w') ->
  rs = [] \/ length rs = length files.
Proof.
  destruct files as [|f0 files'].
  - intros [= <- <-]. now left.
  - intros E.
    apply process_multiple_images_inv in E
      as (tmpd & ta & w5 & success & w6 & tb & _ & _ & _ & _ & _ & Hf & Ht);
      [|easy].
    destruct success.
    + specialize (Ht eq_refl). destruct (fs_exists _ _); auto.
    + destruct Hf as [-> _]; [easy|]. right. apply repeat_length.
Qed.

Lemma Forall_not_run_In t c d rc :
  Forall not_run t -> ~ In (EvRun c d rc) t.
Proof.
  intros F H. rewrite Forall_forall in F. apply F in H. discriminate H.
Qed.

(** A run of [bind], whatever its outcome: the first part raised, or it
    returned and the rest ran. *)
Lemma bind_cases {A B} P (m : M A) (k : A -> M B) w r w' :
  appends P m ->
  bind m k w = (r, w') ->
  (exists t e, trace w' = trace w ++ t /\ Forall P t /\ r = Raise e)
  \/ (exists a w1 t,
        trace w1 = trace w ++ t /\ Forall P t /\ k a w1 = (r, w')).
Proof.
  intros Hm. unfold bind. destruct (m w) as [[a|e] w1] eqn:Em; intros E.
  - right. destruct (Hm _ _ _ Em) as (t & Et & Ft). now exists a, w1, t.
  - left. injection E as <- <-.
    destruct (Hm _ _ _ Em) as (t & Et & Ft). now exists t, e.
Qed.

(** A run of [restore_photos], whatever its outcome: it made no run of the
    shell and did not return [True], or it ended with the run of its command
    and returned whether the exit status was zero. *)
Lemma restore_photos_cases shell i o g ws hr w r w' :
  restore_photos shell i o g ws hr w = (r, w') ->
  exists t,
    trace w' = trace w ++ t
    /\ ((Forall not_run t /\ r <> Val true)
        \/ (exists pre rc,
              t = pre ++ [EvRun (build_command i o g ws hr)
                                (Some photo_restoration_dir) rc]
              /\ Forall not_run pre
              /\ r = Val (rc =? 0)%Z)).
Proof.
  unfold restore_photos. intros E.
  unfold bind at 1 in E. rewrite os_path_exists_run in E.
  destruct (fs_exists (fs w) photo_restoration_dir); cbn [negb] in E.
  2:{ injection E as <- <-. eexists. split; [reflexivity|]. left.
      split; [now repeat constructor | discriminate]. }
  unfold bind at 1 in E. rewrite os_path_exists_run in E. cbn [fs trace] in E.
  destruct (fs_exists (fs w) _); cbn [negb] in E.
  2:{ injection E as <- <-. cbn [trace]. rewrite <- app_assoc.
      eexists. split; [reflexivity|]. left.
      split; [now repeat constructor | discriminate]. }
  apply (bind_cases not_run) in E; [|apply appends_prepare_output].
  cbn [trace] in E.
  destruct E as [(tp & e & Et & Ft & ->)|(u & w3 & tp & Et & Ft & E)].
  { exists ([EvExists photo_restoration_dir;
             EvExists (os_path_join photo_restoration_dir ["run.py"])] ++ tp).
    split; [now rewrite Et, <- !app_assoc|]. left. split; [|discriminate].
    apply Forall_app. split; [now repeat constructor | easy]. }
  unfold run_command, bind, get_fs, put_fs, log in E. cbn in E.
  destruct (assoc (fs w3) photo_restoration_dir) as [[x|]|].
  - injection E as <- <-.
    exists ([EvExists photo_restoration_dir;
             EvExists (os_path_join photo_restoration_dir ["run.py"])] ++ tp).
    split; [now rewrite Et, <- !app_assoc|]. left. split; [|discriminate].
    apply Forall_app. split; [now repeat constructor | easy].
  - destruct (shell _ _ _) as [f' rc]. cbn in E.
    exists ([EvExists photo_restoration_dir;
             EvExists (os_path_join photo_restoration_dir ["run.py"])]
            ++ tp
            ++ [EvRun (build_command i o g ws hr)
                      (Some photo_restoration_dir) rc]).
    split.
    + destruct (rc =? 0)%Z; injection E as <- <-; cbn [trace];
        rewrite Et, <- !app_assoc; reflexivity.
    + right.
      exists ([EvExists photo_restoration_dir;
               EvExists (os_path_join photo_restoration_dir ["run.py"])]
              ++ tp), rc.
      split; [now rewrite <- app_assoc|]. split.
      * apply Forall_app. split; [now repeat constructor | easy].
      * destruct (rc =? 0)%Z; now injection E as <- <-.
  - injection E as <- <-.
    exists ([EvExists photo_restoration_dir;
             EvExists (os_path_join photo_restoration_dir ["run.py"])] ++ tp).
    split; [now rewrite Et, <- !app_assoc|]. left. split; [|discriminate].
    apply Forall_app. split; [now repeat constructor | easy].
Qed.






(** C1 fails when the engine exits with status 0 without creating the
    directory [final_output]: for a batch of one submitted photo the engine
    command is run and succeeds, and the returned batch result is the empty
    list, where one entry was due. *)
Theorem batch_without_final_output_is_empty :
  fst idle_batch_run = Val []
  /\ In (EvRun batch_command (Some photo_restoration_dir) 0)
        (trace (snd idle_batch_run))
  /\ fs_exists (fs_engine_ready) photo_a = true
  /\ length (@nil item) <> length [Some photo_a].
Proof.
  repeat split.
  - vm_compute. repeat first [left; reflexivity | right].
  - discriminate.
Qed.

(* ================================================================== *)
(** * Further properties *)

(** ** What [restore_photos] does before the engine starts *)

Lemma on_the_way_prefix pre rest e :
  on_the_way pre rest e ->
  snd e = Dir /\ under (fst e) (pre ++ rest) = true.
Proof.
  intros (Hd & r1 & r2 & _ & -> & ->). split; [easy|].
  apply under_iff. exists r2. now rewrite <- app_assoc.
Qed.

(** Whatever its outcome, [os.makedirs(p)] only adds directories, at [p] or
    above it. *)
Lemma os_makedirs_adds_dirs p exist_ok w r w' :
  os_makedirs p exist_ok w = (r, w') ->
  exists added,
    fs w' = fs w ++ added
    /\ Forall (fun e => snd e = Dir /\ under (fst e) p = true) added.
Proof.
  unfold os_makedirs, bind, log, get_fs, put_fs. cbn.
  destruct (split_last p) as [[parent name]|] eqn:Hs.
  2:{ intros [= <- <-]. exists []. cbn. now rewrite app_nil_r. }
  apply split_last_inv in Hs. subst p.
  destruct (ensure_dirs (fs w) [] parent) as [f1 ok] eqn:E. cbn.
  destruct (ensure_dirs_extends _ _ _ _ _ E) as (added & -> & Hadd).
  assert (Hadd' : Forall (fun e : path * node =>
                            snd e = Dir /\ under (fst e) (parent ++ [name]) = true)
                         added).
  { revert Hadd. apply Forall_impl. intros e He.
    apply on_the_way_prefix in He as [Hd Hu]. split; [easy|].
    cbn in Hu. apply under_iff in Hu as [r2 ->].
    apply under_iff. exists (r2 ++ [name]). now rewrite <- app_assoc. }
  destruct ok; cbn.
  2:{ intros [= <- <-]. now exists added. }
  destruct (node_at (fs w ++ added) (parent ++ [name])) as [[c|]|]; cbn.
  - intros [= <- <-]. now exists added.
  - destruct exist_ok; intros [= <- <-]; now exists added.
  - intros [= <- <-]. exists (added ++ [(parent ++ [name], Dir)]).
    cbn. rewrite <- app_assoc. split; [easy|].
    apply Forall_app. split; [easy|]. constructor; [|easy].
    split; [easy | apply under_refl].
Qed.

(** Appending directories keeps every node, and turns absent paths into
    directories at most. *)
Lemma node_at_app_dirs f added p :
  Forall (fun e : path * node => snd e = Dir) added ->
  node_at (f ++ added) p = node_at f p
  \/ (node_at f p = None /\ node_at (f ++ added) p = Some Dir
      /\ exists e, In e added /\ fst e = p).
Proof.
  intros Hd. destruct (node_at f p) as [n|] eqn:E.
  - left. now apply node_at_app_l.
  - rewrite node_at_app_r by easy.
    destruct (list_eq_dec string_dec p [EmptyString]) as [->|Hp];
      [discriminate E|].
    rewrite node_at_assoc by easy.
    induction added as [|[q m] added IH]; cbn; [now left|].
    inversion Hd as [|? ? Hq Hd']; subst. cbn in Hq. subst m.
    destruct (path_eqb q p) eqn:Eq.
    + apply path_eqb_eq in Eq. subst q. right. repeat split.
      exists (p, Dir). split; [now left | reflexivity].
    + destruct (IH Hd') as [IH'|(_ & IH' & e & He & Hfst)].
      * now left.
      * right. repeat split; [exact IH'|]. exists e. split; [now right | easy].
Qed.

(** The preparation step changes nothing outside the output folder, but
    for the ancestors it creates. *)
Lemma prepare_output_outside out w w' (r : outcome unit) p :
  prepare_output out w = (r, w') ->
  under out p = false ->
  kept_or_made_dir out (fs w) (fs w') p.
Proof.
  intros E Hout. unfold prepare_output in E.
  unfold bind at 1 in E. rewrite os_path_isdir_run in E.
  set (w0 := mkWorld (fs w) (trace w ++ [EvIsdir out])) in *.
  assert (Hmk : forall f t r1 w1,
             os_makedirs out false (mkWorld f t) = (r1, w1) ->
             node_at f p = node_at (fs w) p ->
             kept_or_made_dir out (fs w) (fs w1) p).
  { intros f t r1 w1 E1 Hf.
    apply os_makedirs_adds_dirs in E1 as (added & -> & Hadd). cbn [fs].
    destruct (node_at_app_dirs f added p) as [Hsame|(Hnone & Hdir & e & He & Hfst)].
    - revert Hadd. apply Forall_impl. now intros e [He _].
    - left. congruence.
    - right. rewrite Forall_forall in Hadd.
      destruct (Hadd e He) as [_ Hu]. rewrite Hfst in Hu.
      repeat split; [congruence | easy | easy]. }
  destruct (fs_isdir (fs w) out) eqn:Edir.
  - unfold bind at 1 in E.
    unfold shutil_rmtree, bind, log, get_fs, put_fs in E. cbn in E.
    unfold fs_isdir in Edir.
    destruct (node_at (fs w) out) as [[c|]|]; try discriminate Edir.
    cbn in E. apply Hmk in E; [easy|].
    now apply node_at_remove_tree_outside.
  - unfold bind at 1 in E. cbn in E. now apply Hmk in E.
Qed.

(** X1. Whatever its outcome, the preparation step of [restore_photos]
    leaves every path outside the output folder as it was, except that a
    missing ancestor of the output folder may have become a directory. *)
Theorem prepare_output_frame :
  forall (out : path) (w w' : World) (r : outcome unit) (p : path),
    prepare_output out w = (r, w') ->
    under out p = false ->
    kept_or_made_dir out (fs w) (fs w') p.
Proof. intros out w w' r p. apply prepare_output_outside. Qed.

(** An instance: the earlier output is removed, the folder [/tmp] stays. *)
Lemma prepare_output_frame_witness :
  under tmp_out tmp = false
  /\ kept_or_made_dir tmp_out fs_no_engine
       (fs (snd (prepare_output tmp_out (mkWorld fs_no_engine [])))) tmp.
Proof.
  split; [reflexivity|].
  apply (prepare_output_frame tmp_out (mkWorld fs_no_engine [])
           (snd (prepare_output tmp_out (mkWorld fs_no_engine [])))
           (fst (prepare_output tmp_out (mkWorld fs_no_engine []))) tmp);
    reflexivity.
Defined.

(** With the engine in place, a preparable output folder and the engine
    outside it: the file system on which the engine command is run has an
    empty output folder and is otherwise what it was (but for created
    ancestors), and what [restore_photos] leaves is what the command left. *)
Lemma restore_photos_engine_start shell i o g ws hr w :
  fs_isdir (fs w) photo_restoration_dir = true ->
  fs_exists (fs w) run_py_path = true ->
  preparable (fs w) o = true ->
  under o photo_restoration_dir = false ->
  exists f0 f' rc t,
    emptied f0 o
    /\ (forall p, under o p = false -> kept_or_made_dir o (fs w) f0 p)
    /\ shell (build_command i o g ws hr) (Some photo_restoration_dir) f0
       = (f', rc)
    /\ restore_photos shell i o g ws hr w
       = (Val (rc =? 0)%Z, mkWorld f' t).
Proof.
  intros Hdir Hrun Hprep Hout.
  destruct (restore_photos_run shell i o g ws hr w Hdir Hrun Hprep Hout)
    as (w0 & w1 & f' & rc & Hfs & Eprep & Esh & Erun).
  assert (Hemp : emptied (fs w1) o).
  { rewrite <- Hfs in Hprep.
    destruct (prepare_output_run o w0 Hprep)
      as (added & Erun' & Hn & _ & Hroot & Hnil).
    rewrite Eprep in Erun'. injection Erun' as ->. cbn [fs].
    rewrite app_assoc. now apply emptied_after_mkdir. }
  exists (fs w1), f', rc. eexists.
  split; [exact Hemp|]. split; [|split; eassumption].
  intros p Hp. rewrite <- Hfs.
  now apply (prepare_output_outside o w0 w1 (Val tt)).
Qed.

(** X2. With the engine in place, a preparable output folder and the
    engine outside it, [restore_photos] runs the engine command on a file
    system in which the output folder exists and is empty, returns whether
    the exit status is zero, and leaves the file system as the command left
    it. *)
Theorem engine_starts_on_empty_output :
  forall shell (i o : path) (g : Z) (ws hr : bool) (w : World),
    fs_isdir (fs w) photo_restoration_dir = true ->
    fs_exists (fs w) run_py_path = true ->
    preparable (fs w) o = true ->
    under o photo_restoration_dir = false ->
    exists f0 f' rc t,
      emptied f0 o
      /\ shell (build_command i o g ws hr) (Some photo_restoration_dir) f0
         = (f', rc)
      /\ restore_photos shell i o g ws hr w
         = (Val (rc =? 0)%Z, mkWorld f' t).
Proof.
  intros shell i o g ws hr w Hdir Hrun Hprep Hout.
  destruct (restore_photos_engine_start shell i o g ws hr w
              Hdir Hrun Hprep Hout) as (f0 & f' & rc & t & He & _ & Es & Er).
  now exists f0, f', rc, t.
Qed.

(** An instance: the input folder [/tmp/out/in] and the output folder
    [/tmp/out]. *)
Lemma engine_starts_on_empty_output_witness :
  preparable fs_nested_input tmp_out = true
  /\ exists f0 f' rc t,
       emptied f0 tmp_out
       /\ shell_idle (build_command nested_in tmp_out (-1) false false)
            (Some photo_restoration_dir) f0 = (f', rc)
       /\ restore_photos shell_idle nested_in tmp_out (-1) false false
            (mkWorld fs_nested_input [])
          = (Val (rc =? 0)%Z, mkWorld f' t).
Proof.
  split; [reflexivity|].
  apply (engine_starts_on_empty_output shell_idle nested_in tmp_out (-1)
           false false (mkWorld fs_nested_input [])); reflexivity.
Defined.

Lemma strictly_under_trans o i p :
  under o i = true -> strictly_under i p = true -> strictly_under o p = true.
Proof.
  unfold strictly_under. intros Hoi Hip.
  apply andb_prop in Hip as [Hu Hne].
  apply negb_true_iff, path_eqb_neq in Hne.
  apply under_iff in Hoi as [r1 ->]. apply under_iff in Hu as [r2 ->].
  apply andb_true_intro. split.
  - apply under_iff. exists (r1 ++ r2). now rewrite <- app_assoc.
  - apply negb_true_iff, path_eqb_neq. intros E.
    rewrite <- app_assoc in E. rewrite <- (app_nil_r o) in E at 1.
    apply app_inv_head in E. symmetry in E.
    apply app_eq_nil in E as [-> ->]. apply Hne. now rewrite !app_nil_r.
Qed.

(** X3. When the input folder is the output folder or lies below it, the
    preparation of the output folder removes the input: the engine command
    is run on a file system in which nothing is left below the input
    folder. *)
Theorem input_inside_output_is_wiped :
  forall shell (i o : path) (g : Z) (ws hr : bool) (w : World),
    fs_isdir (fs w) photo_restoration_dir = true ->
    fs_exists (fs w) run_py_path = true ->
    preparable (fs w) o = true ->
    under o photo_restoration_dir = false ->
    under o i = true ->
    exists f0 f' rc t,
      (forall p, strictly_under i p = true -> node_at f0 p = None)
      /\ shell (build_command i o g ws hr) (Some photo_restoration_dir) f0
         = (f', rc)
      /\ restore_photos shell i o g ws hr w
         = (Val (rc =? 0)%Z, mkWorld f' t).
Proof.
  intros shell i o g ws hr w Hdir Hrun Hprep Hout Hin.
  destruct (restore_photos_engine_start shell i o g ws hr w
              Hdir Hrun Hprep Hout)
    as (f0 & f' & rc & t & (_ & _ & He) & _ & Es & Er).
  exists f0, f', rc, t. repeat split; try assumption.
  intros p Hp. apply He. now apply (strictly_under_trans o i p).
Qed.

(** An instance: the photo [/tmp/out/in/a.jpg] is gone when the engine
    starts on the input folder [/tmp/out/in]. *)
Lemma input_inside_output_is_wiped_witness :
  under tmp_out nested_in = true
  /\ node_at fs_nested_input (os_path_join nested_in ["a.jpg"])
     = Some (File (Some (mkImage 10 10 ModeRGB)))
  /\ exists f0 f' rc t,
       node_at f0 (os_path_join nested_in ["a.jpg"]) = None
       /\ shell_idle (build_command nested_in tmp_out (-1) false false)
            (Some photo_restoration_dir) f0 = (f', rc)
       /\ restore_photos shell_idle nested_in tmp_out (-1) false false
            (mkWorld fs_nested_input [])
          = (Val (rc =? 0)%Z, mkWorld f' t).
Proof.
  split; [reflexivity|]. split; [reflexivity|].
  destruct (input_inside_output_is_wiped shell_idle nested_in tmp_out (-1)
              false false (mkWorld fs_nested_input []))
    as (f0 & f' & rc & t & Hgone & Es & Er); try reflexivity.
  exists f0, f', rc, t. repeat split; try assumption.
  apply Hgone. reflexivity.
Defined.

(** X4. A call of [restore_photos], whatever its outcome, runs the shell at
    most once, and a run is the last thing it does: it is the run of the
    engine command in the directory [photo_restoration], and the call
    returns [True] exactly when that run exits with status zero. *)
Theorem restore_photos_runs_at_most_once :
  forall shell (i o : path) (g : Z) (ws hr : bool) (w w' : World)
         (r : outcome bool),
    restore_photos shell i o g ws hr w = (r, w') ->
    exists t,
      trace w' = trace w ++ t
      /\ (forall c d rc,
            In (EvRun c d rc) t ->
            exists pre,
              t = pre ++ [EvRun c d rc]
              /\ Forall not_run pre
              /\ c = build_command i o g ws hr
              /\ d = Some photo_restoration_dir
              /\ r = Val (rc =? 0)%Z)
      /\ (r = Val true ->
          exists pre,
            t = pre ++ [EvRun (build_command i o g ws hr)
                              (Some photo_restoration_dir) 0%Z]
            /\ Forall not_run pre).
Proof.
  intros shell i o g ws hr w w' r E.
  destruct (restore_photos_cases _ _ _ _ _ _ _ _ _ E)
    as (t & Et & [[Fno Hr]|(pre & rc & -> & Fpre & ->)]).
  - exists t. repeat split; [easy | |].
    + intros c d rc Hin. now apply Forall_not_run_In in Hin.
    + intros ->. now elim Hr.
  - eexists. split; [exact Et|]. split.
    + intros c d rc' Hin. apply in_app_or in Hin as [Hin|[Hin|[]]].
      * now apply Forall_not_run_In in Hin.
      * injection Hin as <- <- <-. now exists pre.
    + intros [= Hrc]. apply Z.eqb_eq in Hrc. subst rc. now exists pre.
Qed.

(** An instance: the engine in place and a command that exits with
    status 0. *)
Lemma restore_photos_runs_at_most_once_witness :
  exists t,
    trace (snd (restore_photos shell_idle tmp_in tmp_out (-1) false false
                  (mkWorld fs_engine_ready []))) = [] ++ t
    /\ exists pre,
         t = pre ++ [EvRun (build_command tmp_in tmp_out (-1) false false)
                           (Some photo_restoration_dir) 0%Z]
         /\ Forall not_run pre.
Proof.
  destruct (restore_photos_runs_at_most_once shell_idle tmp_in tmp_out (-1)
              false false (mkWorld fs_engine_ready [])
              (snd (restore_photos shell_idle tmp_in tmp_out (-1) false false
                      (mkWorld fs_engine_ready [])))
              (Val true) eq_refl) as (t & Et & _ & Htrue).
  exists t. split; [exact Et|]. now apply Htrue.
Defined.

(** ** The temporary directory of the drivers *)

Lemma first_free_spec tempdir f names p :
  first_free tempdir f names = Some p ->
  exists n,
    In n names
    /\ p = os_path_join tempdir [("tmp" ++ n)%string]
    /\ fs_exists f p = false.
Proof.
  induction names as [|n names IH]; cbn [first_free]; [easy|].
  destruct (fs_exists f (os_path_join tempdir [("tmp" ++ n)%string])) eqn:E.
  - intros H. destruct (IH H) as (m & Hm & Hp & Hf). exists m.
    split; [now right | now split].
  - intros [= <-]. exists n. split; [now left | now split].
Qed.

(** A [with tempfile.TemporaryDirectory()] block, whatever its outcome:
    no directory could be made and nothing happened, or a fresh directory
    was made, the body ran in it, and the directory was removed. *)
Lemma with_TemporaryDirectory_cases {A} tempdir names (body : path -> M A)
    w r w' :
  with_TemporaryDirectory tempdir names body w = (r, w') ->
  (w' = w /\ exists e, r = Raise e)
  \/ (exists n w1 w2,
        In n names
        /\ fs_exists (fs w) (os_path_join tempdir [("tmp" ++ n)%string]) = false
        /\ fs w1 = fs w ++ [(os_path_join tempdir [("tmp" ++ n)%string], Dir)]
        /\ trace w1 = trace w
                      ++ [EvMkdtemp (os_path_join tempdir [("tmp" ++ n)%string])]
        /\ body (os_path_join tempdir [("tmp" ++ n)%string]) w1 = (r, w2)
        /\ w' = cleanup (os_path_join tempdir [("tmp" ++ n)%string]) w2).
Proof.
  unfold with_TemporaryDirectory, mkdtemp, bind, get_fs, put_fs, log, finally,
    ret.
  cbn [fs trace].
  destruct (first_free tempdir (fs w) names) as [p|] eqn:Ef.
  2:{ intros [= <- <-]. left. split; [easy | now eexists]. }
  apply first_free_spec in Ef as (n & Hn & -> & Hfree).
  destruct (node_at (fs w) tempdir) as [[c|]|].
  - intros [= <- <-]. left. split; [easy | now eexists].
  - cbn [fs trace].
    match goal with
    | |- (let (_, _) := ?b in _) = _ -> _ => destruct b as [r2 w2] eqn:Eb
    end.
    intros [= <- <-].
    right. exists n. do 2 eexists. repeat split; try eassumption; reflexivity.
  - intros [= <- <-]. left. split; [easy | now eexists].
Qed.




(** ** The result of the single-image driver *)

Lemma assoc_fs_set_same f p n : assoc (fs_set f p n) p = Some n.
Proof.
  induction f as [|[q m] f IH]; cbn.
  - now rewrite path_eqb_refl.
  - destruct (path_eqb q p) eqn:E; cbn; now rewrite E.
Qed.

Lemma assoc_fs_set_other f p q n :
  p <> q -> assoc (fs_set f p n) q = assoc f q.
Proof.
  intros Hne. induction f as [|[q' m] f IH]; cbn.
  - apply path_eqb_neq in Hne. now rewrite Hne.
  - destruct (path_eqb q' p) eqn:E; cbn.
    + apply path_eqb_eq in E. subst q'.
      apply path_eqb_neq in Hne. now rewrite Hne.
    + destruct (path_eqb q' q); [reflexivity | exact IH].
Qed.

(** Writing a file, whatever the outcome: nothing changed and the call
    raised, or the node at the path has been set. *)
Lemma write_file_cases p c w r w' :
  write_file p c w = (r, w') ->
  trace w' = trace w
  /\ ((fs w' = fs w /\ exists e, r = Raise e)
      \/ (r = Val tt /\ fs w' = fs_set (fs w) p (File c)
          /\ p <> [EmptyString])).
Proof.
  unfold write_file, bind, get_fs, put_fs, raise. cbn.
  destruct (split_last p) as [[parent name]|];
    [|intros [= <- <-]; split; [easy|]; left; split; [easy | now eexists]].
  destruct (match parent with [] => true | _ :: _ => fs_isdir (fs w) parent end);
    [|intros [= <- <-]; split; [easy|]; left; split; [easy | now eexists]].
  destruct (node_at (fs w) p) as [[x|]|] eqn:E; intros [= <- <-];
    (split; [easy|]).
  - right. repeat split. intros ->. discriminate E.
  - left. split; [easy | now eexists].
  - right. repeat split. intros ->. discriminate E.
Qed.

Lemma write_file_stored p c w w' :
  write_file p c w = (Val tt, w') -> node_at (fs w') p = Some (File c).
Proof.
  intros E. apply write_file_cases in E as [_ [[_ [e He]]|(_ & -> & Hp)]];
    [discriminate|].
  rewrite node_at_assoc by easy. apply assoc_fs_set_same.
Qed.

Lemma Image_save_jpeg_stored im p w w' :
  Image_save_jpeg im p w = (Val tt, w') ->
  node_at (fs w') p = Some (File (Some im)).
Proof.
  unfold Image_save_jpeg. intros E.
  apply bind_inv in E as (u & w1 & _ & E).
  destruct (im_mode im); try discriminate E; now apply write_file_stored in E.
Qed.

(** The download path is never inside the temporary directory. *)
Lemma download_outside_temp tempdir n timestamp :
  under (os_path_join tempdir [("tmp" ++ n)%string]) (download_path timestamp)
  = false.
Proof.
  unfold download_path, os_path_join.
  destruct tempdir as [|a [|b [|c tempdir]]]; cbn; try reflexivity.
  - now destruct (String.eqb a "downloads").
  - destruct (String.eqb a "downloads"); [|reflexivity]. cbn.
    now destruct (String.eqb b _).
  - destruct (String.eqb a "downloads"); [|reflexivity]. cbn.
    now destruct (String.eqb b _).
Qed.

(** A call of the single-image driver that returns a result. *)
Lemma process_single_image_inv shell tempdir names timestamp image g s h
    w res w' :
  process_single_image shell tempdir names timestamp (Some image) g s h w
  = (Val res, w') ->
  res = (None, None, None)
  \/ (exists restored,
        res = (Some image, Some restored, Some (download_path timestamp))
        /\ node_at (fs w') (download_path timestamp)
           = Some (File (Some restored))).
Proof.
  cbn [process_single_image]. intros E.
  apply with_TemporaryDirectory_cases in E
    as [[_ [e He]]|(n & w1 & w2 & _ & _ & _ & _ & Eb & ->)]; [discriminate|].
  apply bind_inv in Eb as (u1 & w3 & _ & Eb).
  apply bind_inv in Eb as (u2 & w4 & _ & Eb).
  apply bind_inv in Eb as (u3 & w5 & _ & Eb).
  apply bind_inv in Eb as (l1 & w6 & _ & Eb).
  apply bind_inv in Eb as (success & w7 & _ & Eb).
  apply bind_inv in Eb as (e1 & w8 & _ & Eb).
  apply bind_inv in Eb as (u4 & w9 & _ & Eb).
  destruct success; cbn [negb] in Eb; [|injection Eb as <- <-; now left].
  apply bind_inv in Eb as (u5 & w10 & _ & Eb).
  apply bind_inv in Eb as (found & w11 & _ & Eb).
  destruct found as [[restored restored_path]|];
    [|injection Eb as <- <-; now left].
  apply bind_inv in Eb as (u6 & w12 & _ & Eb).
  apply bind_inv in Eb as (u7 & w13 & Esave & Eb).
  injection Eb as <- <-. right. exists restored. split; [reflexivity|].
  cbn [cleanup fs].
  rewrite node_at_remove_tree_outside by apply download_outside_temp.
  destruct u7. now apply Image_save_jpeg_stored in Esave.
Qed.

(** X6. A result of the single-image driver is all or nothing: it is
    [(None, None, None)], or it holds the uploaded image itself, a restored
    image, and the path [downloads/restored_photo_<timestamp>.jpg]; in the
    second case the file at that path exists when the driver has returned
    (it is not removed with the temporary directory) and holds the restored
    image. *)
Theorem single_result_is_all_or_nothing :
  forall shell tempdir names timestamp (image : option image)
         (use_gpu with_scratch high_resolution : bool)
         (w w' : World) (res : single_result),
    process_single_image shell tempdir names timestamp image
      use_gpu with_scratch high_resolution w = (Val res, w') ->
    res = (None, None, None)
    \/ (exists original restored,
          image = Some original
          /\ res = (Some original, Some restored,
                    Some (download_path timestamp))
          /\ node_at (fs w') (download_path timestamp)
             = Some (File (Some restored))).
Proof.
  intros shell tempdir names timestamp [image|] g s h w w' res E.
  - apply process_single_image_inv in E as [->|(restored & -> & Hn)];
      [now left|].
    right. now exists image, restored.
  - injection E as <- <-. now left.
Qed.

(** An instance: a run whose engine restores the photo. *)
Lemma single_result_is_all_or_nothing_witness :
  fst single_run
  = Val (Some square_100, Some (mkImage 10 10 ModeRGB),
         Some (download_path "20240101_000000"))
  /\ node_at (fs (snd single_run)) (download_path "20240101_000000")
     = Some (File (Some (mkImage 10 10 ModeRGB))).
Proof.
  assert (E : single_run
              = (Val (Some square_100, Some (mkImage 10 10 ModeRGB),
                      Some (download_path "20240101_000000")),
                 snd single_run)) by (vm_compute; reflexivity).
  split; [now rewrite E|].
  destruct (single_result_is_all_or_nothing shell_restoring_single tmp
              ["aaa"] "20240101_000000" (Some square_100) false false false
              (mkWorld fs_engine_ready []) (snd single_run) _ E)
    as [H|(original & restored & _ & H & Hn)]; [discriminate H|].
  injection H as _ <-. exact Hn.
Defined.

(** ** The staged names of a batch *)

Lemma chars_inj a b : Str.chars a = Str.chars b -> a = b.
Proof.
  unfold Str.chars. intros E.
  rewrite <- (string_of_list_ascii_of_string a).
  rewrite <- (string_of_list_ascii_of_string b). now rewrite E.
Qed.

Lemma of_Z_inj a b : Str.of_Z a = Str.of_Z b -> a = b.
Proof.
  unfold Str.of_Z. intros E. apply DecimalZ.to_int_inj.
  assert (Hnn : forall z, Z.to_int z <> Decimal.Pos Decimal.Nil
                          /\ Z.to_int z <> Decimal.Neg Decimal.Nil).
  { intros [|p|p]; cbn; split; try discriminate;
      intros [= H]; now apply DecimalPos.Unsigned.to_uint_nonnil in H. }
  destruct (Hnn a) as [Ha1 Ha2]. destruct (Hnn b) as [Hb1 Hb2].
  pose proof (NilZero.isi _ Ha1 Ha2) as Ia.
  pose proof (NilZero.isi _ Hb1 Hb2) as Ib.
  rewrite E in Ia. congruence.
Qed.

Lemma uint_digits d :
  Forall (fun c => is_digit c = true) (Str.chars (NilEmpty.string_of_uint d)).
Proof.
  unfold Str.chars. induction d; cbn; constructor; auto.
Qed.

(** The decimal text of an index consists of digits. *)
Lemma of_nat_digits n :
  Forall (fun c => is_digit c = true) (Str.chars (Str.of_nat n)).
Proof.
  assert (Hz : forall d, Forall (fun c => is_digit c = true)
                           (Str.chars (NilZero.string_of_uint d))).
  { intros d. destruct d; try apply (uint_digits (_ d)).
    cbn. now repeat constructor. }
  unfold Str.of_nat, Str.of_Z.
  destruct (Z.of_nat n) as [|p|p] eqn:E;
    cbn [Z.to_int NilZero.string_of_int]; [apply Hz | apply Hz | lia].
Qed.

Lemma last_dot_tail_dot s t :
  Str.last_dot_tail s = Some t -> exists t', t = String "."%char t'.
Proof.
  induction s as [|c s IH]; cbn; [easy|].
  destruct (Str.last_dot_tail s) as [t0|].
  - intros [= <-]. now apply IH.
  - destruct (Ascii.eqb c "."%char) eqn:E; [|easy].
    apply Ascii.eqb_eq in E. subst c. intros [= <-]. now exists s.
Qed.

(** A suffix is empty or starts with a dot. *)
Lemma suffix_shape name :
  Str.suffix name = EmptyString
  \/ exists t, Str.suffix name = String "."%char t.
Proof.
  unfold Str.suffix. destruct name as [|c rest]; [now left|].
  destruct (Str.last_dot_tail rest) as [t|] eqn:E; [|now left].
  destruct (Nat.eqb (String.length t) 1); [now left|].
  right. now apply last_dot_tail_dot in E.
Qed.

(** Digits followed by a text that does not start with a digit: the digits
    are determined. *)
Lemma digits_determined l1 : forall l2 s1 s2,
  l1 ++ s1 = l2 ++ s2 ->
  Forall (fun c => is_digit c = true) l1 ->
  Forall (fun c => is_digit c = true) l2 ->
  (forall c s, s1 = c :: s -> is_digit c = false) ->
  (forall c s, s2 = c :: s -> is_digit c = false) ->
  l1 = l2.
Proof.
  induction l1 as [|c l1 IH]; intros [|c2 l2] s1 s2 E F1 F2 H1 H2; cbn in E.
  - reflexivity.
  - inversion F2 as [|? ? Hc _]; subst. rewrite (H1 _ _ eq_refl) in Hc.
    discriminate.
  - inversion F1 as [|? ? Hc _]; subst. rewrite (H2 _ _ eq_refl) in Hc.
    discriminate.
  - injection E as <- E. inversion F1; inversion F2; subst.
    f_equal. now apply (IH l2 s1 s2).
Qed.

Lemma indexed_name_index i j p q :
  indexed_name i p = indexed_name j q -> i = j.
Proof.
  unfold indexed_name. intros E.
  apply (f_equal Str.chars) in E. rewrite !chars_append in E.
  apply app_inv_head in E.
  assert (Hs : forall name c s,
             Str.chars (Str.suffix name) = c :: s -> is_digit c = false).
  { intros name c s Hc.
    destruct (suffix_shape name) as [Hn|[t Hn]]; rewrite Hn in Hc.
    - discriminate.
    - injection Hc as <- _. reflexivity. }
  apply digits_determined in E;
    [| apply of_nat_digits | apply of_nat_digits | apply Hs | apply Hs].
  apply chars_inj, of_Z_inj in E. lia.
Qed.

(** X7. The names under which a batch is staged never collide: files at
    different positions of the list get different names [image_<i><ext>],
    whatever their own names and extensions. *)
Theorem staged_names_never_collide :
  forall (i j : nat) (p q : path),
    i <> j -> indexed_name i p <> indexed_name j q.
Proof.
  intros i j p q Hne E. apply Hne. now apply (indexed_name_index i j p q).
Qed.

(** An instance: two uploads of the same file. *)
Lemma staged_names_never_collide_witness :
  indexed_name 0 photo_a = "image_0.jpg"
  /\ indexed_name 0 photo_a <> indexed_name 1 photo_a.
Proof.
  split; [reflexivity|].
  apply (staged_names_never_collide 0 1 photo_a photo_a). discriminate.
Defined.

(** ** The entries of a batch result *)







(** ** What a computation leaves of the file system *)

Lemma reads_only_ret {A} (a : A) : reads_only (ret a).
Proof. now intros w r w' [= <- <-]. Qed.

Lemma reads_only_raise {A} e : reads_only (@raise A e).
Proof. now intros w r w' [= <- <-]. Qed.

Lemma reads_only_log e : reads_only (log e).
Proof. now intros w r w' [= <- <-]. Qed.

Lemma reads_only_get_fs : reads_only get_fs.
Proof. now intros w r w' [= <- <-]. Qed.

Lemma reads_only_bind {A B} (m : M A) (k : A -> M B) :
  reads_only m -> (forall a, reads_only (k a)) -> reads_only (bind m k).
Proof.
  intros Hm Hk w r w'. unfold bind.
  destruct (m w) as [[a|e] w1] eqn:Em; intros E.
  - rewrite (Hk a _ _ _ E). exact (Hm _ _ _ Em).
  - injection E as <- <-. exact (Hm _ _ _ Em).
Qed.

Lemma reads_only_for_each {A} (xs : list A) (body : A -> M unit) :
  (forall x, reads_only (body x)) -> reads_only (for_each xs body).
Proof.
  intros Hb. induction xs as [|x xs IH]; cbn.
  - apply reads_only_ret.
  - apply reads_only_bind; auto.
Qed.

Ltac reads_only_step :=
  lazymatch goal with
  | |- reads_only (bind _ _) => apply reads_only_bind; [|intros ?]
  | |- reads_only (ret _) => apply reads_only_ret
  | |- reads_only (raise _) => apply reads_only_raise
  | |- reads_only get_fs => apply reads_only_get_fs
  | |- reads_only (log _) => apply reads_only_log
  | |- reads_only (for_each _ _) => apply reads_only_for_each; intros ?
  | |- reads_only (match ?x with _ => _ end) => destruct x
  end.

Lemma reads_only_os_path_exists p : reads_only (os_path_exists p).
Proof. unfold os_path_exists. repeat reads_only_step. Qed.

Lemma reads_only_os_path_isdir p : reads_only (os_path_isdir p).
Proof. unfold os_path_isdir. repeat reads_only_step. Qed.

Lemma reads_only_os_listdir p : reads_only (os_listdir p).
Proof. unfold os_listdir. repeat reads_only_step. Qed.

Lemma reads_only_Image_open p : reads_only (Image_open p).
Proof. unfold Image_open. repeat reads_only_step. Qed.

Lemma reads_only_Path_is_file p : reads_only (Path_is_file p).
Proof. unfold Path_is_file. repeat reads_only_step. Qed.

Lemma reads_only_image_files input_path names :
  reads_only (image_files input_path names).
Proof.
  induction names as [|n names IH]; cbn [image_files].
  - apply reads_only_ret.
  - apply reads_only_bind; [apply reads_only_Path_is_file|]. intros b.
    apply reads_only_bind; [exact IH|]. intros rest. apply reads_only_ret.
Qed.

Lemma changes_only_reads {A} S (m : M A) : reads_only m -> changes_only S m.
Proof. intros Hm w r w' p E _. now rewrite (Hm _ _ _ E). Qed.

Lemma changes_only_bind {A B} S (m : M A) (k : A -> M B) :
  changes_only S m -> (forall a, changes_only S (k a)) ->
  changes_only S (bind m k).
Proof.
  intros Hm Hk w r w' p. unfold bind.
  destruct (m w) as [[a|e] w1] eqn:Em; intros E Hp.
  - rewrite (Hk a _ _ _ _ E Hp). exact (Hm _ _ _ _ Em Hp).
  - injection E as <- <-. exact (Hm _ _ _ _ Em Hp).
Qed.

Lemma changes_only_for_each {A} S (xs : list A) (body : A -> M unit) :
  (forall x, changes_only S (body x)) -> changes_only S (for_each xs body).
Proof.
  intros Hb. induction xs as [|x xs IH]; cbn.
  - apply changes_only_reads, reads_only_ret.
  - apply changes_only_bind; auto.
Qed.

Lemma changes_only_try_except {A} S (body : M A) (handler : exn -> M A) :
  changes_only S body -> (forall e, changes_only S (handler e)) ->
  changes_only S (try_except body handler).
Proof.
  intros Hb Hh w r w' p. unfold try_except.
  destruct (body w) as [[a|e] w1] eqn:Eb; intros E Hp.
  - injection E as <- <-. exact (Hb _ _ _ _ Eb Hp).
  - rewrite (Hh e _ _ _ _ E Hp). exact (Hb _ _ _ _ Eb Hp).
Qed.

(** Writing a file changes the node of its path only. *)
Lemma changes_only_write_file (S : path -> Prop) p c :
  S p -> changes_only S (write_file p c).
Proof.
  intros Hp w r w' q E Hq.
  apply write_file_cases in E as [_ [[-> _]|(_ & -> & Hroot)]]; [easy|].
  assert (p <> q) by (intros ->; now apply Hq).
  destruct (list_eq_dec string_dec q [EmptyString]) as [->|Hq']; [easy|].
  rewrite !node_at_assoc by easy. now apply assoc_fs_set_other.
Qed.

Lemma changes_only_Image_save (S : path -> Prop) im p :
  S p -> changes_only S (Image_save im p).
Proof.
  intros Hp. unfold Image_save.
  apply changes_only_bind; [apply changes_only_reads, reads_only_log|].
  intros _. destruct (format_of (basename p));
    [|apply changes_only_reads, reads_only_raise].
  destruct (encoder_writes _ _);
    [now apply changes_only_write_file
    | apply changes_only_reads, reads_only_raise].
Qed.

(** ** [visualize_results] *)

(** *** Names and formats *)




Lemma Image_resize_mode im w h im' :
  Image_resize im w h = Val im' -> im_mode im' = im_mode im.
Proof.
  unfold Image_resize.
  destruct ((w =? im_width im) && (h =? im_height im))%Z;
    [now intros [= <-]|].
  destruct ((w <? 1) || (h <? 1))%Z; [discriminate|]. now intros [= <-].
Qed.





(** *** The names [visualize_results] works on *)



Lemma image_files_run input_path names : forall w,
  exists w',
    image_files input_path names w
    = (Val (filter (fun n => is_file_at (fs w) (os_path_join input_path [n])
                             && has_image_extension n) names), w')
    /\ fs w' = fs w.
Proof.
  induction names as [|n names IH]; intros w; cbn [image_files filter].
  - now exists w.
  - unfold bind at 1. unfold Path_is_file at 1.
    unfold bind, log, get_fs, ret. cbn [fs trace].
    set (w1 := mkWorld (fs w) (trace w ++ [EvExists (os_path_join input_path [n])])).
    destruct (IH w1) as (w' & E & Hf). rewrite E. cbn [fs w1] in *.
    exists w'. split; [|exact Hf]. unfold is_file_at.
    now destruct (node_at (fs w) (os_path_join input_path [n])) as [[x|]|];
      destruct (has_image_extension n).
Qed.




(** *** One comparison *)

(** The body of the loop never raises. *)
Lemma visualize_one_returns input_path output_path name w :
  exists w', visualize_one input_path output_path name w = (Val tt, w').
Proof.
  unfold visualize_one, try_except.
  match goal with |- exists w', match ?b with _ => _ end = _ =>
    destruct b as [[[]|e] w1] end; eexists; reflexivity.
Qed.

Lemma for_each_visualize_one_returns input_path output_path names : forall w,
  exists w',
    for_each names (visualize_one input_path output_path) w = (Val tt, w').
Proof.
  induction names as [|n names IH]; intros w; cbn [for_each].
  - now exists w.
  - destruct (visualize_one_returns input_path output_path n w) as (w1 & E).
    unfold bind. rewrite E. apply IH.
Qed.


Lemma changes_only_weaken {A} (S T : path -> Prop) (m : M A) :
  (forall p, S p -> T p) -> changes_only S m -> changes_only T m.
Proof. intros HST Hm w r w' p E Hp. apply (Hm w r w' p E). auto. Qed.

(** The body of the loop changes the comparison of its file at most. *)
Lemma visualize_one_frame input_path output_folder name :
  changes_only (eq (comparison_path output_folder name))
    (visualize_one input_path (os_path_join output_folder ["final_output"])
       name).
Proof.
  unfold visualize_one. apply changes_only_try_except.
  - apply changes_only_bind;
      [apply changes_only_reads, reads_only_Image_open|]. intros original.
    apply changes_only_bind;
      [apply changes_only_reads, reads_only_Image_open|]. intros restored.
    destruct (make_grid original restored true);
      [|apply changes_only_reads, reads_only_raise].
    now apply changes_only_Image_save.
  - intros e. apply changes_only_reads, reads_only_ret.
Qed.








Lemma visualize_results_run i o w :
  fs_exists (fs w) (os_path_join o ["final_output"]) = true ->
  fs_isdir (fs w) i = true ->
  exists w1,
    fs w1 = fs w
    /\ visualize_results i o w
       = for_each
           (sort_names
              (filter (fun n => is_file_at (fs w) (os_path_join i [n])
                                && has_image_extension n)
                      (fs_children (fs w) i)))
           (visualize_one i (os_path_join o ["final_output"])) w1.
Proof.
  intros Hex Hin. unfold visualize_results.
  unfold bind at 1. rewrite os_path_exists_run.
  rewrite Hex. cbn [negb].
  assert (Hn : node_at (fs w) i = Some Dir).
  { unfold fs_isdir in Hin. now destruct (node_at (fs w) i) as [[x|]|]. }
  unfold bind at 1. rewrite os_listdir_run by exact Hn. cbn [fs].
  unfold bind at 1.
  match goal with |- context [image_files i ?l ?w0] =>
    destruct (image_files_run i l w0) as (w1 & E & Hf) end.
  rewrite E. cbn [fs] in *. now exists w1.
Qed.



(** X10. [visualize_results] returns normally exactly when the output
    folder has no [final_output] or the input folder is a directory: no
    failure to open, compose or save a single photo ever leaves the call,
    and the one thing that makes it raise is an input folder that cannot
    be listed while [final_output] exists. *)
Theorem visualize_results_raises_only_for_input_folder :
  forall (input_folder output_folder : path) (w : World),
    fst (visualize_results input_folder output_folder w) = Val tt
    <-> (fs_exists (fs w) (os_path_join output_folder ["final_output"])
         = false
         \/ fs_isdir (fs w) input_folder = true).
Proof.
  intros i o w.
  destruct (fs_exists (fs w) (os_path_join o ["final_output"])) eqn:Hex.
  - destruct (fs_isdir (fs w) i) eqn:Hin.
    + split; [now right|]. intros _.
      destruct (visualize_results_run i o w Hex Hin) as (w1 & Hf & ->).
      destruct (for_each_visualize_one_returns i
                  (os_path_join o ["final_output"])
                  (sort_names
                     (filter (fun n => is_file_at (fs w) (os_path_join i [n])
                                       && has_image_extension n)
                             (fs_children (fs w) i))) w1) as (w2 & ->).
      reflexivity.
    + split; [|now intros [|]]. intros E. exfalso.
      unfold visualize_results in E.
      unfold bind at 1 in E. rewrite os_path_exists_run, Hex in E.
      cbn [negb] in E. unfold bind at 1 in E.
      unfold os_listdir, bind, log, get_fs, raise in E. cbn [fs trace] in E.
      unfold fs_isdir in Hin.
      destruct (node_at (fs w) i) as [[x|]|]; discriminate.
  - split; [now left|]. intros _. unfold visualize_results.
    unfold bind at 1. now rewrite os_path_exists_run, Hex.
Qed.

(** An instance: the album, one of whose photos cannot be composed. *)
Lemma visualize_results_raises_only_for_input_folder_witness :
  fst (visualize_results album album_out (mkWorld fs_album [])) = Val tt.
Proof.
  apply (visualize_results_raises_only_for_input_folder album album_out
           (mkWorld fs_album [])).
  right. reflexivity.
Defined.

Lemma changes_only_visualize_results input_folder output_folder :
  changes_only (is_comparison_path output_folder)
    (visualize_results input_folder output_folder).
Proof.
  unfold visualize_results.
  apply changes_only_bind;
    [apply changes_only_reads, reads_only_os_path_exists|]. intros e.
  destruct (negb e); [apply changes_only_reads, reads_only_ret|].
  apply changes_only_bind;
    [apply changes_only_reads, reads_only_os_listdir|]. intros names.
  apply changes_only_bind;
    [apply changes_only_reads, reads_only_image_files|]. intros filenames.
  apply changes_only_for_each. intros name.
  apply (changes_only_weaken (eq (comparison_path output_folder name)));
    [intros p <-; now exists name | apply visualize_one_frame].
Qed.

(** X11. Whatever its outcome, [visualize_results] changes nothing but
    files named [comparison_<name>] in the directory [final_output] of the
    output folder: every other path, and so every original and every
    restored photo of another name, is as it was. Without a directory
    [final_output] it returns at once and changes nothing at all. *)
Theorem visualize_results_writes_comparisons_only :
  forall (input_folder output_folder : path) (w w' : World)
         (r : outcome unit),
    visualize_results input_folder output_folder w = (r, w') ->
    (forall p, ~ is_comparison_path output_folder p ->
               node_at (fs w') p = node_at (fs w) p)
    /\ (fs_exists (fs w) (os_path_join output_folder ["final_output"]) = false ->
        r = Val tt /\ fs w' = fs w).
Proof.
  intros input_folder output_folder w w' r E. split.
  - intros p Hp.
    now apply (changes_only_visualize_results input_folder output_folder
                 w r w' p).
  - intros Hno. unfold visualize_results in E.
    unfold bind at 1 in E. rewrite os_path_exists_run in E.
    rewrite Hno in E. now injection E as <- <-.
Qed.

(** An instance: the album keeps its photos and its restored images. *)
Lemma visualize_results_writes_comparisons_only_witness :
  (forall p, ~ is_comparison_path album_out p ->
             node_at (fs (snd (visualize_results album album_out
                                 (mkWorld fs_album [])))) p
             = node_at fs_album p)
  /\ (fs_exists fs_album (os_path_join album_out ["final_output"]) = false ->
      fst (visualize_results album album_out (mkWorld fs_album [])) = Val tt
      /\ fs (snd (visualize_results album album_out (mkWorld fs_album [])))
         = fs_album).
Proof.
  apply (visualize_results_writes_comparisons_only album album_out
           (mkWorld fs_album [])
           (snd (visualize_results album album_out (mkWorld fs_album [])))
           (fst (visualize_results album album_out (mkWorld fs_album [])))).
  reflexivity.
Defined.

(** ** [process_custom_photos] *)

Lemma appends_try_except {A} P (body : M A) (handler : exn -> M A) :
  appends P body -> (forall e, appends P (handler e)) ->
  appends P (try_except body handler).
Proof.
  intros Hb Hh w r w'. unfold try_except.
  destruct (body w) as [[a|e] w1] eqn:Eb; intros E.
  - injection E as <- <-. exact (Hb _ _ _ Eb).
  - destruct (Hb _ _ _ Eb) as (t1 & E1 & F1).
    destruct (Hh e _ _ _ E) as (t2 & E2 & F2).
    exists (t1 ++ t2). rewrite E2, E1, app_assoc. split; [reflexivity|].
    apply Forall_app. now split.
Qed.

(** What [visualize_results] adds to the trace: queries and saves. *)
Lemma appends_visualize_results i o :
  appends (fun e => is_query e = true \/ is_save e = true)
          (visualize_results i o).
Proof.
  unfold visualize_results.
  apply appends_bind; [apply appends_os_path_exists; now left|]. intros e.
  destruct (negb e); [apply appends_ret|].
  apply appends_bind; [apply appends_os_listdir; now left|]. intros names.
  apply appends_bind.
  - induction names as [|n names IH]; cbn [image_files];
      [apply appends_ret|].
    apply appends_bind.
    + unfold Path_is_file. repeat appends_step. now left.
    + intros b. apply appends_bind; [exact IH|]. intros rest.
      apply appends_ret.
  - intros filenames. apply appends_for_each. intros name.
    unfold visualize_one. apply appends_try_except;
      [|intros err; apply appends_ret].
    apply appends_bind; [apply appends_Image_open; now left|].
    intros original.
    apply appends_bind; [apply appends_Image_open; now left|].
    intros restored.
    destruct (make_grid original restored true); [|apply appends_raise].
    unfold Image_save.
    apply appends_bind; [apply appends_log; now right|]. intros _.
    destruct (format_of _); [|apply appends_raise].
    destruct (encoder_writes _ _);
      [apply appends_write_file | apply appends_raise].
Qed.


Lemma appends_restore_photos_not_save shell i o g ws hr :
  appends not_save (restore_photos shell i o g ws hr).
Proof.
  unfold restore_photos, prepare_output, run_command.
  appends_go; reflexivity.
Qed.

(** A save in a trace that starts with events that are none lies behind
    them. *)
Lemma save_behind a : forall b pre p post,
  Forall not_save a ->
  a ++ b = pre ++ EvSave p :: post ->
  exists pre', pre = a ++ pre'.
Proof.
  induction a as [|e a IH]; intros b pre p post Ha E.
  - now exists pre.
  - inversion Ha as [|? ? He Ha']; subst.
    destruct pre as [|e' pre]; cbn in E.
    + injection E as -> _. discriminate He.
    + injection E as <- E. destruct (IH _ _ _ _ Ha' E) as (pre' & ->).
      now exists pre'.
Qed.

(** X12. The comparisons of [process_custom_photos] are saved only after
    the engine command has run and exited with status 0: whatever the
    outcome, every save of an image in the trace of the call comes after the
    record of that run. When the engine is missing, fails or cannot be
    started, no image is saved. *)
Theorem comparisons_follow_a_successful_run :
  forall shell (input_folder output_folder : path) (gpu_id : Z)
         (with_scratch hr : bool) (w w' : World) (r : outcome unit),
    process_custom_photos shell input_folder output_folder gpu_id
      with_scratch hr w = (r, w') ->
    exists t,
      trace w' = trace w ++ t
      /\ forall pre p post,
           t = pre ++ EvSave p :: post ->
           In (EvRun (build_command input_folder output_folder gpu_id
                        with_scratch hr)
                     (Some photo_restoration_dir) 0) pre.
Proof.
  intros shell i o g ws hr w w' r E. unfold process_custom_photos in E.
  assert (Hnone : forall t,
            trace w' = trace w ++ t -> Forall not_save t ->
            exists t, trace w' = trace w ++ t
              /\ forall pre p post, t = pre ++ EvSave p :: post ->
                   In (EvRun (build_command i o g ws hr)
                             (Some photo_restoration_dir) 0) pre).
  { intros t Et Ft. exists t. split; [exact Et|]. intros pre p post ->.
    apply Forall_app in Ft as [_ Ft]. inversion Ft as [|? ? He _].
    discriminate He. }
  apply (bind_cases not_save) in E;
    [|now apply appends_os_makedirs].
  destruct E as [(t1 & e & Et1 & Ft1 & _)|(u1 & w1 & t1 & Et1 & Ft1 & E)];
    [now apply (Hnone t1)|].
  apply (bind_cases not_save) in E;
    [|now apply appends_os_makedirs].
  destruct E as [(t2 & e & Et2 & Ft2 & _)|(u2 & w2 & t2 & Et2 & Ft2 & E)].
  { apply (Hnone (t1 ++ t2)); [now rewrite Et2, Et1, app_assoc|].
    apply Forall_app. now split. }
  unfold bind in E.
  destruct (restore_photos shell i o g ws hr w2) as [rr w3] eqn:Er.
  destruct (appends_restore_photos_not_save shell i o g ws hr _ _ _ Er)
    as (tr & Etr & Ftr).
  assert (Et3 : trace w3 = trace w ++ (t1 ++ t2 ++ tr)).
  { now rewrite Etr, Et2, Et1, <- !app_assoc. }
  assert (Ft3 : Forall not_save (t1 ++ t2 ++ tr)).
  { apply Forall_app. split; [easy|]. apply Forall_app. now split. }
  destruct rr as [[|]|e].
  2:{ injection E as _ <-. apply (Hnone (t1 ++ t2 ++ tr)); assumption. }
  2:{ injection E as _ <-. apply (Hnone (t1 ++ t2 ++ tr)); assumption. }
  assert (Hrun : In (EvRun (build_command i o g ws hr)
                           (Some photo_restoration_dir) 0) tr).
  { destruct (restore_photos_cases shell i o g ws hr _ _ _ Er)
      as (tr' & Etr' & [[_ Hno]|(pre & rc & -> & _ & Hrc)]).
    - now elim Hno.
    - rewrite Etr in Etr'. apply app_inv_head in Etr'. subst tr.
      injection Hrc as Hrc. symmetry in Hrc. apply Z.eqb_eq in Hrc.
      subst rc. apply in_or_app. right. now left. }
  destruct (appends_visualize_results i o _ _ _ E) as (tv & Etv & _).
  exists ((t1 ++ t2 ++ tr) ++ tv). split; [now rewrite Etv, Et3, <- !app_assoc|].
  intros pre p post Esplit.
  destruct (save_behind _ _ _ _ _ Ft3 Esplit) as (pre' & ->).
  apply in_or_app. left. apply in_or_app. right. apply in_or_app. now right.
Qed.

(** An instance: the album, restored by an engine that exits with 0. *)
Lemma comparisons_follow_a_successful_run_witness :
  In (EvSave (comparison_path album_out "a.jpg")) (trace (snd custom_run))
  /\ exists t,
       trace (snd custom_run) = [] ++ t
       /\ forall pre p post,
            t = pre ++ EvSave p :: post ->
            In (EvRun (build_command album album_out (-1) true true)
                      (Some photo_restoration_dir) 0) pre.
Proof.
  split; [vm_compute; tauto|].
  apply (comparisons_follow_a_successful_run shell_album album album_out
           (-1) true true (mkWorld fs_album_engine [])
           (snd custom_run) (fst custom_run)).
  reflexivity.
Defined.


(** Without its script, [restore_photos] asks and returns [False]. *)
Lemma restore_photos_without_script shell i o g ws hr w :
  fs_exists (fs w) run_py_path = false ->
  exists t,
    restore_photos shell i o g ws hr w
    = (Val false, mkWorld (fs w) (trace w ++ t))
    /\ Forall (fun e => is_query e = true) t.
Proof.
  intros Hrun. unfold restore_photos.
  erewrite bind_Val by apply os_path_exists_run.
  destruct (fs_exists (fs w) photo_restoration_dir); cbn [negb].
  - erewrite bind_Val by apply os_path_exists_run. cbn [fs trace].
    fold run_py_path. rewrite Hrun. cbn [negb].
    exists [EvExists photo_restoration_dir; EvExists run_py_path].
    split; [now rewrite <- app_assoc | now repeat constructor].
  - exists [EvExists photo_restoration_dir].
    split; [reflexivity | now repeat constructor].
Qed.

(** Directories added at or above folders other than [p] leave [p]
    absent. *)
Lemma absent_after_dirs f added p (targets : path -> Prop) :
  node_at f p = None ->
  Forall (fun e : path * node => snd e = Dir /\ targets (fst e)) added ->
  ~ targets p ->
  node_at (f ++ added) p = None.
Proof.
  intros Hnone Hadd Hp.
  destruct (node_at_app_dirs f added p) as [->|(_ & _ & e & He & Hfst)];
    [revert Hadd; apply Forall_impl; now intros e [He _] | exact Hnone |].
  rewrite Forall_forall in Hadd. destruct (Hadd e He) as [_ Ht].
  rewrite Hfst in Ht. now elim Hp.
Qed.

(** X13. Without the engine's script [run.py], and with folders that do
    not lie at or below its path, [process_custom_photos] destroys nothing:
    whatever its outcome, every path holds what it held, except that a
    missing path at or above the input or the output folder may have become
    a directory; and the call neither runs the engine nor saves an image.
    In particular an earlier output is kept. *)
Theorem custom_photos_without_engine_keep_everything :
  forall shell (input_folder output_folder : path) (gpu_id : Z)
         (with_scratch hr : bool) (w w' : World) (r : outcome unit),
    process_custom_photos shell input_folder output_folder gpu_id
      with_scratch hr w = (r, w') ->
    fs_exists (fs w) run_py_path = false ->
    under run_py_path input_folder = false ->
    under run_py_path output_folder = false ->
    (forall p, kept_or_made_dir input_folder (fs w) (fs w') p
               \/ kept_or_made_dir output_folder (fs w) (fs w') p)
    /\ exists t,
         trace w' = trace w ++ t
         /\ Forall (fun e => is_run e = false /\ is_save e = false) t.
Proof.
  intros shell i o g ws hr w w' r E Hrun Hi Ho.
  set (target := fun q : path => under q i = true \/ under q o = true).
  assert (Hmade : forall added,
            Forall (fun e : path * node => snd e = Dir /\ target (fst e))
                   added ->
            forall p, kept_or_made_dir i (fs w) (fs w ++ added) p
                      \/ kept_or_made_dir o (fs w) (fs w ++ added) p).
  { intros added Hadd p.
    destruct (node_at_app_dirs (fs w) added p)
      as [Hsame|(Hnone & Hdir & e & He & Hfst)];
      [revert Hadd; apply Forall_impl; now intros e [He _]
      | left; now left |].
    rewrite Forall_forall in Hadd. destruct (Hadd e He) as [_ Ht].
    rewrite Hfst in Ht. destruct Ht as [Ht|Ht];
      [left | right]; right; now repeat split. }
  assert (Hkeep : forall added,
            Forall (fun e : path * node => snd e = Dir /\ target (fst e))
                   added ->
            fs_exists (fs w ++ added) run_py_path = false).
  { intros added Hadd. unfold fs_exists in *.
    rewrite (absent_after_dirs (fs w) added run_py_path target); auto.
    - now destruct (node_at (fs w) run_py_path).
    - unfold target. rewrite Hi, Ho. now intros [|]. }
  unfold process_custom_photos, bind in E.
  destruct (os_makedirs i true w) as [r1 w1] eqn:E1.
  destruct (appends_os_makedirs
              (fun e => is_run e = false /\ is_save e = false) i true
              (conj eq_refl eq_refl) _ _ _ E1) as (t1 & Et1 & Ft1).
  apply os_makedirs_adds_dirs in E1 as (added1 & Ef1 & Hadd1).
  assert (Hadd1' : Forall (fun e : path * node =>
                             snd e = Dir /\ target (fst e)) added1).
  { revert Hadd1. apply Forall_impl. intros e [Hd Hu]. split; [easy|].
    now left. }
  destruct r1 as [[]|e1].
  2:{ injection E as _ <-. rewrite Ef1. split; [now apply Hmade|].
      now exists t1. }
  destruct (os_makedirs o true w1) as [r2 w2] eqn:E2.
  destruct (appends_os_makedirs
              (fun e => is_run e = false /\ is_save e = false) o true
              (conj eq_refl eq_refl) _ _ _ E2) as (t2 & Et2 & Ft2).
  apply os_makedirs_adds_dirs in E2 as (added2 & Ef2 & Hadd2).
  assert (Hadd2' : Forall (fun e : path * node =>
                             snd e = Dir /\ target (fst e))
                          (added1 ++ added2)).
  { apply Forall_app. split; [exact Hadd1'|].
    revert Hadd2. apply Forall_impl. intros e [Hd Hu]. split; [easy|].
    now right. }
  assert (Ef2' : fs w2 = fs w ++ added1 ++ added2).
  { now rewrite Ef2, Ef1, <- app_assoc. }
  assert (Ft12 : Forall (fun e => is_run e = false /\ is_save e = false)
                        (t1 ++ t2)).
  { apply Forall_app. now split. }
  destruct r2 as [[]|e2].
  2:{ injection E as _ <-. rewrite Ef2'. split; [now apply Hmade|].
      exists (t1 ++ t2). split; [now rewrite Et2, Et1, app_assoc | easy]. }
  destruct (restore_photos_without_script shell i o g ws hr w2)
    as (t3 & E3 & Ft3).
  { rewrite Ef2'. now apply Hkeep. }
  rewrite E3 in E. injection E as _ <-. cbn [fs trace].
  rewrite Ef2'. split; [now apply Hmade|].
  exists ((t1 ++ t2) ++ t3). split; [now rewrite Et2, Et1, <- !app_assoc|].
  apply Forall_app. split; [exact Ft12|].
  revert Ft3. apply Forall_impl. intros e He. now destruct e.
Qed.

(** An instance: the folder [/tmp/in] is made, the earlier output in
    [/tmp/out] stays. *)
Lemma custom_photos_without_engine_keep_everything_witness :
  fs_exists fs_no_engine run_py_path = false
  /\ (forall p,
        kept_or_made_dir tmp_in fs_no_engine
          (fs (snd custom_run_without_engine)) p
        \/ kept_or_made_dir tmp_out fs_no_engine
             (fs (snd custom_run_without_engine)) p)
  /\ exists t,
       trace (snd custom_run_without_engine) = [] ++ t
       /\ Forall (fun e => is_run e = false /\ is_save e = false) t.
Proof.
  split; [reflexivity|].
  apply (custom_photos_without_engine_keep_everything shell_idle tmp_in
           tmp_out (-1) true true (mkWorld fs_no_engine [])
           (snd custom_run_without_engine)
           (fst custom_run_without_engine));
    reflexivity.
Defined.

(** ** An upload the JPEG encoder refuses *)

(** X14. The single-image driver stages its upload as a JPEG file, which
    cannot hold an alpha channel: for an image of mode [LA] or [RGBA] the
    call raises, whatever the file system and the engine, and it raises
    before the engine is run - the trace of the call holds no run of the
    shell. *)
Theorem upload_with_alpha_is_refused :
  forall shell tempdir names timestamp (image : image)
         (use_gpu with_scratch high_resolution : bool)
         (w w' : World) (r : outcome single_result),
    has_alpha image = true ->
    process_single_image shell tempdir names timestamp (Some image)
      use_gpu with_scratch high_resolution w = (r, w') ->
    (exists e, r = Raise e)
    /\ exists t, trace w' = trace w ++ t /\ Forall not_run t.
Proof.
  intros shell tempdir names timestamp image g s h w w' r Halpha E.
  cbn [process_single_image] in E.
  apply with_TemporaryDirectory_cases in E
    as [[-> He]|(n & w1 & w2 & _ & _ & _ & Et1 & Eb & ->)].
  { split; [exact He|]. exists []. now rewrite app_nil_r. }
  set (d := os_path_join tempdir [("tmp" ++ n)%string]) in *.
  assert (Hbody : (exists e, r = Raise e)
                  /\ exists t, trace w2 = trace w1 ++ t /\ Forall not_run t).
  { apply (bind_cases not_run) in Eb; [|now apply appends_os_makedirs].
    destruct Eb as [(t2 & e & Et2 & Ft2 & ->)|(u2 & w3 & t2 & Et2 & Ft2 & Eb)].
    { split; [now eexists | now exists t2]. }
    apply (bind_cases not_run) in Eb; [|now apply appends_os_makedirs].
    destruct Eb as [(t3 & e & Et3 & Ft3 & ->)|(u3 & w4 & t3 & Et3 & Ft3 & Eb)].
    { split; [now eexists|]. exists (t2 ++ t3).
      split; [now rewrite Et3, Et2, app_assoc | now apply Forall_app]. }
    unfold bind at 1 in Eb. unfold Image_save_jpeg, bind, log in Eb.
    unfold has_alpha in Halpha.
    destruct (im_mode image); try discriminate Halpha;
      injection Eb as <- <-; (split; [now eexists|]);
      exists (t2 ++ t3 ++ [EvSave (os_path_join (os_path_join d ["input"])
                                                [uploaded_name])]);
      cbn [trace]; (split; [now rewrite Et3, Et2, <- !app_assoc|]);
      repeat (apply Forall_app; split; try assumption);
      now repeat constructor. }
  destruct Hbody as (He & t & Et & Ft). split; [exact He|].
  exists ([EvMkdtemp d] ++ t ++ [EvRmtree d]). cbn [cleanup trace]. split.
  - now rewrite Et, Et1, <- !app_assoc.
  - repeat (apply Forall_app; split; try assumption); now repeat constructor.
Qed.

(** An instance: the cut-out, refused with [OSError]. *)
Lemma upload_with_alpha_is_refused_witness :
  fst alpha_run = Raise OSError
  /\ (exists e, fst alpha_run = Raise e)
  /\ exists t, trace (snd alpha_run) = [] ++ t /\ Forall not_run t.
Proof.
  split; [reflexivity|].
  apply (upload_with_alpha_is_refused shell_restoring_single tmp ["aaa"]
           "20240101_000000" cutout_100 false false false
           (mkWorld fs_engine_ready []) (snd alpha_run) (fst alpha_run));
    reflexivity.
Defined.

(** ** The images [make_grid] lays side by side *)

(** X15. [make_grid] returns for composable pairs only: when it returns a
    comparison for an original of at least one pixel, the original is
    single-band, or it has three or four bands and so has the restored
    image; the comparison is grey in the first case and colour in the
    second. For an original with grey and alpha, and for a colour original
    with a grey restored image, it raises. *)
Theorem make_grid_refuses_other_images :
  forall (I1 I2 : image) (resize : bool) (c : image),
    (1 <= im_width I1)%Z ->
    (1 <= im_height I1)%Z ->
    make_grid I1 I2 resize = Val c ->
    composable I1 I2 = true /\ im_mode c = canvas_mode I1.
Proof.
  intros I1 I2 resize c Hw Hh E. unfold make_grid in E.
  apply and_then_inv in E as (canvas & Ec & E).
  assert (Hcanvas : composable I1 I2 = true
                    /\ im_mode canvas = canvas_mode I1).
  { unfold composable, canvas_mode.
    apply Z.leb_le in Hw, Hh. rewrite Hw, Hh. cbn [andb].
    destruct (3 <=? ndim I1)%Z eqn:En.
    - apply and_then_inv in Ec as (I2' & E2 & Ec).
      apply Image_resize_mode in E2.
      apply and_then_inv in Ec as (u1 & E1 & Ec).
      apply and_then_inv in Ec as (u2 & E2' & Ec).
      injection Ec as <-. split; [|reflexivity].
      unfold assign_first_three, ndim in *. rewrite E2 in E2'.
      destruct (im_mode I1); try discriminate; try reflexivity;
        destruct (im_mode I2); try discriminate; reflexivity.
    - apply and_then_inv in Ec as (I2' & _ & Ec). injection Ec as <-.
      split; [|reflexivity]. unfold ndim in En.
      now destruct (im_mode I1). }
  destruct Hcanvas as [Hc Hm]. split; [exact Hc|].
  destruct resize.
  - apply and_then_inv in E as (h & _ & E).
    apply Image_resize_mode in E. now rewrite E.
  - now injection E as <-.
Qed.

(** An instance: two colour squares. *)
Lemma make_grid_refuses_other_images_witness :
  composable square_100 square_100 = true
  /\ im_mode (mkImage 600 300 ModeRGB) = canvas_mode square_100.
Proof.
  apply (make_grid_refuses_other_images square_100 square_100 true
           (mkImage 600 300 ModeRGB)); [cbn; lia | cbn; lia | reflexivity].
Defined.
